(** * Marathi Wikipedia corpus harvester ([wikipedia_Dump.py])

    A shallow embedding of the harvesting script: the text cleaner, the
    start-up load of the seen-titles file, the worker loop (as an atomic-step
    machine, one step per lock scope or external call), the monitor loop and
    the interleaving of several workers over the shared, lock-guarded state. *)

From Stdlib Require Import ZArith Lia List Bool Ascii String.
From stdpp Require Import base decidable countable gmap sets list.

Open Scope Z_scope.

(** ** Python [str]

    A Python 3 [str] is a sequence of Unicode code points; a code point is
    represented by its number. *)

Abbreviation str := (list Z) (only parsing).

Module PyStr.

Definition SPACE : Z := 0x20.

(** [str.isspace] on one character (CPython's [Py_UNICODE_ISSPACE]); the
    same predicate decides the class [\s] of [re] on [str] patterns and what
    [str.strip()] and [str.split()] treat as white space. *)
Definition isspace (c : Z) : bool :=
  (0x09 <=? c) && (c <=? 0x0D) || (0x1C <=? c) && (c <=? 0x20)
  || (c =? 0x85) || (c =? 0xA0) || (c =? 0x1680)
  || (0x2000 <=? c) && (c <=? 0x200A)
  || (c =? 0x2028) || (c =? 0x2029) || (c =? 0x202F) || (c =? 0x205F)
  || (c =? 0x3000).

Fixpoint drop_while (p : Z -> bool) (s : str) : str :=
  match s with
  | [] => []
  | c :: s' => if p c then drop_while p s' else s
  end.

Definition lstrip (s : str) : str := drop_while isspace s.
Definition rstrip (s : str) : str := rev (drop_while isspace (rev s)).

(** [s.strip()] *)
Definition strip (s : str) : str := rstrip (lstrip s).

(** [s.split()]: the maximal runs of characters that are not white space.
    [cur] holds the word being read, last character first. *)
Fixpoint split_from (cur : str) (s : str) : list (list Z) :=
  match s with
  | [] => match cur with [] => [] | _ => [rev cur] end
  | c :: s' =>
      if isspace c
      then match cur with
           | [] => split_from [] s'
           | _ => rev cur :: split_from [] s'
           end
      else split_from (c :: cur) s'
  end.

Definition split (s : str) : list (list Z) := split_from [] s.

Fixpoint startswith (p s : str) : bool :=
  match p, s with
  | [], _ => true
  | _ :: _, [] => false
  | a :: p', b :: s' => (a =? b) && startswith p' s'
  end.

(** [p in s] on strings: [p] occurs in [s] as a contiguous run. *)
Fixpoint contains (p s : str) : bool :=
  startswith p s
  || match s with
     | [] => false
     | _ :: s' => contains p s'
     end.

(** [re.sub(r'C+', ' ', s)] for a character class [C]: every maximal run
    of characters of the class becomes one space. [in_run] tells that the
    previous character belonged to the run being replaced. *)
Fixpoint sub_runs (cls : Z -> bool) (in_run : bool) (s : str) : str :=
  match s with
  | [] => []
  | c :: s' =>
      if cls c
      then if in_run then sub_runs cls true s' else SPACE :: sub_runs cls true s'
      else c :: sub_runs cls false s'
  end.

Definition re_sub_plus (cls : Z -> bool) (s : str) : str := sub_runs cls false s.

(** The characters of an ASCII literal. *)
Definition lit (s : String.string) : str :=
  map (fun b => Z.of_nat (Ascii.nat_of_ascii b)) (String.list_ascii_of_string s).
Arguments lit s%_string.

End PyStr.

Import PyStr.

(** ** The cleaning function *)

(** The characters listed one by one in the class of [clean_text]:
    [।,!?०१२३४५६७८९]. *)
Definition listed_chars : list Z :=
  [0x0964; 0x2C; 0x21; 0x3F;
   0x0966; 0x0967; 0x0968; 0x0969; 0x096A; 0x096B; 0x096C; 0x096D; 0x096E; 0x096F].

(** The set inside [[^ऀ-ॿ\s।,!?०१२३४५६७८९]]: the characters kept. *)
Definition kept (c : Z) : bool :=
  (0x0900 <=? c) && (c <=? 0x097F) || isspace c || existsb (Z.eqb c) listed_chars.

Definition dropped (c : Z) : bool := negb (kept c).

Definition clean_text (text : str) : str :=
  let text := re_sub_plus dropped text in
  let text := re_sub_plus isspace text in
  strip text.

(** [len(content.split())] *)
Definition word_count (content : str) : Z := Z.of_nat (length (split content)).

(** The shape of a cleaned text: only kept characters, white space only as
    a single U+0020 between two other characters. *)
Fixpoint spaced_ok (s : str) : bool :=
  match s with
  | [] => true
  | c :: s' =>
      (if isspace c
       then (c =? SPACE) && match s' with [] => false | d :: _ => negb (isspace d) end
       else true)
      && kept c && spaced_ok s'
  end.

Definition cleaned (s : str) : bool :=
  match s with [] => true | c :: _ => negb (isspace c) end && spaced_ok s.

(** The same without the condition on the last character. *)
Fixpoint spaced (s : str) : bool :=
  match s with
  | [] => true
  | c :: s' =>
      (if isspace c
       then (c =? SPACE) && match s' with [] => true | d :: _ => negb (isspace d) end
       else true)
      && spaced s'
  end.

(** What the round-trip property asks of its input, read literally: only
    kept characters, and no two U+0020 in a row. *)
Fixpoint single_spaces (s : str) : bool :=
  match s with
  | [] => true
  | c :: s' =>
      negb ((c =? SPACE) && match s' with [] => false | d :: _ => d =? SPACE end)
      && single_spaces s'
  end.

Definition allowed_with_single_spaces (s : str) : bool :=
  forallb kept s && single_spaces s.

(** "Hello मराठी  123 वाक्य." and "मराठी वाक्य" *)
Definition sample_raw : str :=
  lit "Hello " ++ [0x92E; 0x930; 0x93E; 0x920; 0x940] ++ lit "  123 "
  ++ [0x935; 0x93E; 0x915; 0x94D; 0x92F] ++ lit ".".
Definition sample_clean : str :=
  [0x92E; 0x930; 0x93E; 0x920; 0x940] ++ lit " " ++ [0x935; 0x93E; 0x915; 0x94D; 0x92F].

(** ** Configuration *)

Record config := mkConfig {
  NUM_ARTICLES : Z;
  NUM_WORKER_THREADS : Z;
  FILE_SIZE_PRINT_INTERVAL : Z;
  BATCH_SIZE : Z;
  MAX_RETRIES : Z;
  RETRY_DELAY : Z;
  CONSECUTIVE_EMPTY_THRESHOLD : Z
}.

(** The constants of the script. *)
Definition script_config : config :=
  {| NUM_ARTICLES := 800000000000;
     NUM_WORKER_THREADS := 8;
     FILE_SIZE_PRINT_INTERVAL := 60;
     BATCH_SIZE := 20;
     MAX_RETRIES := 4;
     RETRY_DELAY := 10;
     CONSECUTIVE_EMPTY_THRESHOLD := 100 |}.

(** ** Global state

    The three module-level variables guarded by [lock], and the lines of
    [SEEN_TITLES_FILE] (a line is kept without its terminator). *)

Record state := mkState {
  seen_titles : gset (list Z);
  total_articles_written : Z;
  consecutive_empty_batches : Z;
  seen_file : list (list Z)
}.

(** ** Loading the seen titles *)

Definition invalid_patterns : list (list Z) :=
  [ lit "("; lit ")";
    [0x935; 0x93F; 0x915; 0x93F; 0x92A; 0x940; 0x921; 0x93F; 0x92F; 0x93E];
    lit "disambiguation";
    [0x92E; 0x926; 0x924];
    [0x938; 0x93E; 0x91A; 0x93E];
    [0x91A; 0x930; 0x94D; 0x91A; 0x93E] ].

(** [any(patt in t for patt in invalid_patterns)] *)
Definition is_invalid (t : str) : bool :=
  existsb (fun patt => contains patt t) invalid_patterns.

(** The [for line in f] loop over the lines of the file. *)
Fixpoint read_lines (lines : list (list Z)) (seen : gset (list Z)) : gset (list Z) :=
  match lines with
  | [] => seen
  | line :: lines' =>
      let title := strip line in
      match title with
      | [] => read_lines lines' seen
      | _ :: _ => read_lines lines' ({[ title ]} ∪ seen)
      end
  end.

(** The module-level start-up code; [file] is [None] when
    [SEEN_TITLES_FILE] does not exist. *)
Definition load (file : option (list (list Z))) : state :=
  match file with
  | Some lines =>
      let seen := read_lines lines ∅ in
      let filtered : gset (list Z) := filter (fun t => is_invalid t = false) seen in
      {| seen_titles := filtered;
         total_articles_written := Z.of_nat (size filtered);
         consecutive_empty_batches := 0;
         seen_file := lines |}
  | None =>
      {| seen_titles := ∅;
         total_articles_written := 0;
         consecutive_empty_batches := 0;
         seen_file := [] |}
  end.

(** ** What a run does to the outside world *)

Inductive message :=
| MsgStopTarget
| MsgStopNoNew
| MsgApiError (attempt : Z) (error_msg : list Z)
| MsgCritical (error_msg : list Z)
| MsgFailedAfter
| MsgNoNewTitles (consecutive_empty : Z)
| MsgSaved (count : Z)
| MsgSeenFileError (error_msg : list Z)
| MsgSkippedShort (title : list Z) (words : Z)
| MsgWritten (title : list Z) (words : Z)
| MsgSkippedSpecial (title : list Z)
| MsgWikipediaError (title : list Z) (error_msg : list Z)
| MsgUnexpected (title : list Z) (error_msg : list Z)
| MsgBatchNoValid (consecutive_empty : Z)
| MsgMonitorStopTarget
| MsgMonitorStopNoNew
| MsgReport (size count count_growth size_growth consecutive_empty : Z)
| MsgMonitorError (error_msg : list Z).

Inductive event :=
| Sleep (seconds : Z)
| RandomCall (attempt : Z)
| PageCall (title : list Z)
| CorpusAppend (title : list Z) (content : list Z)
| Print (m : message).

(** ** What the outside world answers *)

Inductive answer (A : Type) :=
| Returns (a : A)
| Raises (error_msg : list Z).
Arguments Returns {A} a.
Arguments Raises {A} error_msg.

Inductive page_answer :=
| Content (text : list Z)
| SpecialPage                        (* RedirectError, DisambiguationError, PageError *)
| WikipediaError (error_msg : list Z) (* any other WikipediaException *)
| OtherError (error_msg : list Z).    (* any other Exception *)

(** The append to the seen file either goes through or raises after
    [written] of the lines reached the file. *)
Inductive append_answer :=
| Appended
| AppendRaises (error_msg : list Z) (written : nat).

Record oracle := mkOracle {
  random_answer : Z -> answer (list (list Z));   (* by attempt number *)
  seen_append : append_answer;
  page : page_answer;
  corpus_append : answer unit;
  getsize : answer Z
}.

(** ** The worker *)

Inductive stop_reason := TargetReached | NoNewArticles.

(** Where a worker stands in its [while True] loop. *)
Inductive pc :=
| CheckStop
| SampleBatch
| Dedup (titles_batch : list (list Z))
| FetchNext (new_titles : list (list Z)) (articles_written_in_batch : Z)
| FetchAndWrite (title : list Z) (rest : list (list Z)) (articles_written_in_batch : Z)
| CountWrite (title : list Z) (words : Z) (rest : list (list Z)) (articles_written_in_batch : Z)
| BatchEnd (articles_written_in_batch : Z)
| Stopped (r : stop_reason).

Definition is_transient (error_msg : str) : bool :=
  contains (lit "HTTP") error_msg || contains (lit "timed out") error_msg.

(** The [for attempt in range(1, MAX_RETRIES + 1)] loop with its [else]
    clause. [remaining] counts the values of [attempt] still to come. The
    result is [None] after the [else] clause ([continue]), otherwise the
    value of [titles_batch] on leaving the loop. *)
Fixpoint retry_loop (cfg : config) (random : Z -> answer (list (list Z)))
    (remaining : nat) (attempt : Z) : list event * option (list (list Z)) :=
  match remaining with
  | O => ([Print MsgFailedAfter; Sleep 30], None)
  | S remaining' =>
      match random attempt with
      | Returns titles_batch => ([RandomCall attempt], Some titles_batch)
      | Raises error_msg =>
          if is_transient error_msg
          then
            let '(evs, r) := retry_loop cfg random remaining' (attempt + 1) in
            (RandomCall attempt :: Print (MsgApiError attempt error_msg)
               :: Sleep (RETRY_DELAY cfg * attempt) :: evs, r)
          else ([RandomCall attempt; Print (MsgCritical error_msg)], Some [])
      end
  end.

Definition sample_batch (cfg : config) (random : Z -> answer (list (list Z)))
    : list event * option (list (list Z)) :=
  retry_loop cfg random (Z.to_nat (MAX_RETRIES cfg)) 1.

(** The loop over [titles_batch] under the lock: the titles not seen before
    are added to [seen_titles] and collected, in order. *)
Fixpoint claim (titles_batch : list (list Z)) (seen : gset (list Z))
    : gset (list Z) * list (list Z) :=
  match titles_batch with
  | [] => (seen, [])
  | title :: rest =>
      if decide (title ∈ seen)
      then claim rest seen
      else let '(seen', new_titles) := claim rest ({[ title ]} ∪ seen) in
           (seen', title :: new_titles)
  end.

Definition set_seen (st : state) (seen : gset (list Z)) : state :=
  {| seen_titles := seen;
     total_articles_written := total_articles_written st;
     consecutive_empty_batches := consecutive_empty_batches st;
     seen_file := seen_file st |}.

Definition set_total (st : state) (n : Z) : state :=
  {| seen_titles := seen_titles st;
     total_articles_written := n;
     consecutive_empty_batches := consecutive_empty_batches st;
     seen_file := seen_file st |}.

Definition set_empty (st : state) (n : Z) : state :=
  {| seen_titles := seen_titles st;
     total_articles_written := total_articles_written st;
     consecutive_empty_batches := n;
     seen_file := seen_file st |}.

Definition append_seen_file (st : state) (lines : list (list Z)) : state :=
  {| seen_titles := seen_titles st;
     total_articles_written := total_articles_written st;
     consecutive_empty_batches := consecutive_empty_batches st;
     seen_file := seen_file st ++ lines |}.

(** One atomic step of a worker: a [with lock] block, or the calls to the
    outside world between two such blocks together with the thread-local code
    around them (the fetch of a page and the append of its text to the corpus
    read and write none of the shared variables, and make one step). The
    report of a written article leaves out the running total, which the
    script reads outside the lock. *)
Definition worker_step (cfg : config) (o : oracle) (st : state) (p : pc)
    : state * pc * list event :=
  match p with
  | CheckStop =>
      if NUM_ARTICLES cfg <=? total_articles_written st
      then (st, Stopped TargetReached, [Print MsgStopTarget])
      else if CONSECUTIVE_EMPTY_THRESHOLD cfg <=? consecutive_empty_batches st
      then (st, Stopped NoNewArticles, [Print MsgStopNoNew])
      else (st, SampleBatch, [])
  | SampleBatch =>
      match sample_batch cfg (random_answer o) with
      | (evs, Some titles_batch) => (st, Dedup titles_batch, evs)
      | (evs, None) => (st, CheckStop, evs)
      end
  | Dedup titles_batch =>
      let '(seen, new_titles) := claim titles_batch (seen_titles st) in
      let st := set_seen st seen in
      match new_titles with
      | [] =>
          let st := set_empty st (consecutive_empty_batches st + 1) in
          (st, CheckStop, [Print (MsgNoNewTitles (consecutive_empty_batches st))])
      | _ :: _ =>
          let st := set_empty st 0 in
          match seen_append o with
          | Appended =>
              (append_seen_file st new_titles, FetchNext new_titles 0,
               [Print (MsgSaved (Z.of_nat (length new_titles)))])
          | AppendRaises error_msg written =>
              (append_seen_file st (firstn written new_titles), FetchNext new_titles 0,
               [Print (MsgSeenFileError error_msg)])
          end
      end
  | FetchNext [] written => (st, BatchEnd written, [])
  | FetchNext (title :: rest) written =>
      if NUM_ARTICLES cfg <=? total_articles_written st
      then (st, BatchEnd written, [])
      else (st, FetchAndWrite title rest written, [])
  | FetchAndWrite title rest written =>
      match page o with
      | Content text =>
          let content := clean_text text in
          let words := word_count content in
          if words <=? 50
          then (st, FetchNext rest written,
                [PageCall title; Print (MsgSkippedShort title words)])
          else
            match corpus_append o with
            | Returns _ =>
                (st, CountWrite title words rest written,
                 [PageCall title; CorpusAppend title content])
            | Raises error_msg =>
                (st, FetchNext rest written,
                 [PageCall title; Print (MsgUnexpected title error_msg)])
            end
      | SpecialPage =>
          (st, FetchNext rest written, [PageCall title; Print (MsgSkippedSpecial title)])
      | WikipediaError error_msg =>
          (st, FetchNext rest written,
           [PageCall title; Print (MsgWikipediaError title error_msg)])
      | OtherError error_msg =>
          (st, FetchNext rest written,
           [PageCall title; Print (MsgUnexpected title error_msg)])
      end
  | CountWrite title words rest written =>
      (set_total st (total_articles_written st + 1), FetchNext rest (written + 1),
       [Print (MsgWritten title words)])
  | BatchEnd written =>
      if written =? 0
      then
        let st := set_empty st (consecutive_empty_batches st + 1) in
        (st, CheckStop, [Print (MsgBatchNoValid (consecutive_empty_batches st))])
      else (st, CheckStop, [])
  | Stopped r => (st, Stopped r, [])
  end.

(** ** The monitor *)

Inductive monitor_pc :=
| MonitorCheck (last_size last_count : Z)
| MonitorStopped (r : stop_reason).

(** One round of the monitor's loop; sizes are in bytes, and the rate per
    hour, which depends on the clock, is left out of the report. *)
Definition monitor_step (cfg : config) (o : oracle) (st : state) (m : monitor_pc)
    : monitor_pc * list event :=
  match m with
  | MonitorCheck last_size last_count =>
      if NUM_ARTICLES cfg <=? total_articles_written st
      then (MonitorStopped TargetReached, [Print MsgMonitorStopTarget])
      else if CONSECUTIVE_EMPTY_THRESHOLD cfg <=? consecutive_empty_batches st
      then (MonitorStopped NoNewArticles, [Print MsgMonitorStopNoNew])
      else
        let current_count := total_articles_written st in
        match getsize o with
        | Returns current_size =>
            (MonitorCheck current_size current_count,
             [Print (MsgReport current_size current_count (current_count - last_count)
                       (current_size - last_size) (consecutive_empty_batches st));
              Sleep (FILE_SIZE_PRINT_INTERVAL cfg)])
        | Raises error_msg =>
            (MonitorCheck last_size last_count,
             [Print (MsgMonitorError error_msg); Sleep (FILE_SIZE_PRINT_INTERVAL cfg)])
        end
  | MonitorStopped r => (MonitorStopped r, [])
  end.

(** ** The threads together *)

Record system := mkSystem {
  shared : state;
  workers : list pc;
  monitor : monitor_pc
}.

Inductive thread := Worker (i : nat) | Monitor.

(** The thread [who] takes its next atomic step. A worker that has
    returned, or a thread that was never started, does nothing. *)
Definition sys_step (cfg : config) (who : thread) (o : oracle) (s : system)
    : system * list event :=
  match who with
  | Worker i =>
      match workers s !! i with
      | Some p =>
          let '(st, p', evs) := worker_step cfg o (shared s) p in
          ({| shared := st; workers := <[ i := p' ]> (workers s); monitor := monitor s |}, evs)
      | None => (s, [])
      end
  | Monitor =>
      let '(m, evs) := monitor_step cfg o (shared s) (monitor s) in
      ({| shared := shared s; workers := workers s; monitor := m |}, evs)
  end.

(** An interleaving: which thread moves next, and what it is answered. *)
Fixpoint run (cfg : config) (schedule : list (thread * oracle)) (s : system)
    : system * list event :=
  match schedule with
  | [] => (s, [])
  | (who, o) :: schedule' =>
      let '(s1, evs1) := sys_step cfg who o s in
      let '(s2, evs2) := run cfg schedule' s1 in
      (s2, evs1 ++ evs2)
  end.

(** The state after the start-up code, with every worker and the monitor
    started. *)
Definition start (cfg : config) (file : option (list (list Z))) : system :=
  {| shared := load file;
     workers := replicate (Z.to_nat (NUM_WORKER_THREADS cfg)) CheckStop;
     monitor := MonitorCheck 0 0 |}.

(** The titles whose text was appended to the corpus file. *)
Fixpoint corpus_titles (evs : list event) : list (list Z) :=
  match evs with
  | [] => []
  | CorpusAppend title _ :: evs' => title :: corpus_titles evs'
  | _ :: evs' => corpus_titles evs'
  end.

Fixpoint random_calls (evs : list event) : list Z :=
  match evs with
  | [] => []
  | RandomCall attempt :: evs' => attempt :: random_calls evs'
  | _ :: evs' => random_calls evs'
  end.

Fixpoint sleeps (evs : list event) : list Z :=
  match evs with
  | [] => []
  | Sleep seconds :: evs' => seconds :: sleeps evs'
  | _ :: evs' => sleeps evs'
  end.

(** One worker running alone: its next steps, one oracle per step. *)
Fixpoint worker_run (cfg : config) (os : list oracle) (st : state) (p : pc)
    : state * pc * list event :=
  match os with
  | [] => (st, p, [])
  | o :: os' =>
      let '(st1, p1, evs1) := worker_step cfg o st p in
      let '(st2, p2, evs2) := worker_run cfg os' st1 p1 in
      (st2, p2, evs1 ++ evs2)
  end.

(** ** Vocabulary of the properties *)

Definition error_msg_of {A : Type} (a : answer A) : list Z :=
  match a with
  | Raises error_msg => error_msg
  | Returns _ => []
  end.

(** The call raised an error taken for a network error or a timeout. *)
Definition transient_failure {A : Type} (a : answer A) : bool :=
  match a with
  | Raises error_msg => is_transient error_msg
  | Returns _ => false
  end.

(** What [k] attempts in a row, from [attempt] on, leave behind when each
    fails with a transient error: the call, its report, and a sleep of
    [RETRY_DELAY * attempt] seconds. *)
Fixpoint backoff (cfg : config) (random : Z -> answer (list (list Z)))
    (k : nat) (attempt : Z) : list event :=
  match k with
  | O => []
  | S k' =>
      RandomCall attempt :: Print (MsgApiError attempt (error_msg_of (random attempt)))
        :: Sleep (RETRY_DELAY cfg * attempt) :: backoff cfg random k' (attempt + 1)
  end.

(** The titles a worker has claimed and still has to fetch. *)
Definition pending (p : pc) : list (list Z) :=
  match p with
  | FetchNext new_titles _ => new_titles
  | FetchAndWrite title rest _ => title :: rest
  | CountWrite _ _ rest _ => rest
  | _ => []
  end.

Definition pending_all (ws : list pc) : list (list Z) := concat (map pending ws).

(** The worker has passed the check of the target for an article and has
    not yet fetched it. *)
Definition in_flight (p : pc) : bool :=
  match p with
  | FetchAndWrite _ _ _ => true
  | _ => false
  end.

Definition in_flight_count (ws : list pc) : nat := length (List.filter in_flight ws).

(** A bound on the steps a worker still takes once the target is reached. *)
Definition steps_left (p : pc) : nat :=
  match p with
  | Stopped _ => 0
  | CheckStop => 1
  | BatchEnd _ => 2
  | FetchNext _ _ => 3
  | CountWrite _ _ _ _ => 4
  | Dedup _ => 4
  | FetchAndWrite _ _ _ => 5
  | SampleBatch => 5
  end.

(** Attempts [1] to [k] fail with a transient error and attempt [k + 1],
    still within [MAX_RETRIES], fails with another error. *)
Definition permanent_failure_at (cfg : config) (random : Z -> answer (list (list Z)))
    (k : nat) (error_msg : list Z) : Prop :=
  (k < Z.to_nat (MAX_RETRIES cfg))%nat
  /\ (forall j : nat, (j < k)%nat -> transient_failure (random (1 + Z.of_nat j)) = true)
  /\ random (1 + Z.of_nat k) = Raises error_msg
  /\ is_transient error_msg = false.

(** ** Sample inputs *)

(** An outside world where nothing fails and nothing is found. *)
Definition quiet : oracle :=
  {| random_answer := fun _ => Returns [];
     seen_append := Appended;
     page := SpecialPage;
     corpus_append := Returns tt;
     getsize := Returns 0 |}.

Definition with_batch (titles_batch : list (list Z)) : oracle :=
  {| random_answer := fun _ => Returns titles_batch;
     seen_append := Appended;
     page := SpecialPage;
     corpus_append := Returns tt;
     getsize := Returns 0 |}.

Definition with_page (text : list Z) : oracle :=
  {| random_answer := fun _ => Returns [];
     seen_append := Appended;
     page := Content text;
     corpus_append := Returns tt;
     getsize := Returns 0 |}.

Definition with_random_error (error_msg : list Z) : oracle :=
  {| random_answer := fun _ => Raises error_msg;
     seen_append := Appended;
     page := SpecialPage;
     corpus_append := Returns tt;
     getsize := Returns 0 |}.

Definition with_seen_file_error (error_msg : list Z) : oracle :=
  {| random_answer := fun _ => Returns [];
     seen_append := AppendRaises error_msg 0;
     page := SpecialPage;
     corpus_append := Returns tt;
     getsize := Returns 0 |}.

(** A text of 51 words, and one of a single word. *)
Definition long_text : list Z := concat (repeat [0x905; SPACE] 51).
Definition short_text : list Z := [0x905].

Definition fresh_state (consecutive_empty : Z) : state :=
  {| seen_titles := ∅;
     total_articles_written := 0;
     consecutive_empty_batches := consecutive_empty;
     seen_file := [] |}.

(** A target of one article and two workers. *)
Definition small_config : config :=
  {| NUM_ARTICLES := 1;
     NUM_WORKER_THREADS := 2;
     FILE_SIZE_PRINT_INTERVAL := 60;
     BATCH_SIZE := 20;
     MAX_RETRIES := 4;
     RETRY_DELAY := 10;
     CONSECUTIVE_EMPTY_THRESHOLD := 100 |}.

(** Worker 0 claims "A" and worker 1 claims "B"; both pass the check of
    the target; worker 0 writes its article and counts it. *)
Definition race_to_target : list (thread * oracle) :=
  [ (Worker 0, quiet); (Worker 0, with_batch [lit "A"]); (Worker 0, quiet); (Worker 0, quiet);
    (Worker 1, quiet); (Worker 1, with_batch [lit "B"]); (Worker 1, quiet); (Worker 1, quiet);
    (Worker 0, with_page long_text); (Worker 0, quiet) ].

(** Worker 1 fetches the article it was about to fetch. *)
Definition late_fetch : list (thread * oracle) := [ (Worker 1, with_page long_text) ].

(** The invariant of a run that started in the state [st0]: the titles
    written so far and the titles held by the workers are all different and
    all in the set, and so are the titles appended to the seen file, none
    of which was in the set at the start. *)
Definition titles_invariant (st0 : state) (s : system) (evs : list event) : Prop :=
  NoDup (corpus_titles evs ++ pending_all (workers s))
  /\ (forall t, t ∈ corpus_titles evs ++ pending_all (workers s)
                -> t ∈ seen_titles (shared s))
  /\ (forall t, t ∈ seen_titles st0 -> t ∈ seen_titles (shared s))
  /\ exists appended,
       seen_file (shared s) = seen_file st0 ++ appended
       /\ NoDup appended
       /\ forall t, t ∈ appended -> (t ∈ seen_titles (shared s)) /\ (t ∉ seen_titles st0).

(** ** The end of a run *)

(** The last line of the final report, printed once every worker is joined:
    ['Target reached' if total_articles_written >= NUM_ARTICLES else
    'No new articles found']. *)
Definition final_status (cfg : config) (st : state) : stop_reason :=
  if NUM_ARTICLES cfg <=? total_articles_written st then TargetReached else NoNewArticles.

Definition stopped (p : pc) : bool :=
  match p with
  | Stopped _ => true
  | _ => false
  end.

(** Every [t.join()] of the main thread has returned. *)
Definition all_joined (ws : list pc) : bool := forallb stopped ws.

(** ** More vocabulary *)

(** The worker has appended an article and has not yet counted it. *)
Definition counting (p : pc) : bool :=
  match p with
  | CountWrite _ _ _ _ => true
  | _ => false
  end.

(** How many of the workers satisfy [f]. *)
Definition how_many (f : pc -> bool) (ws : list pc) : nat := length (List.filter f ws).

Definition is_monitor (who : thread) : bool :=
  match who with
  | Monitor => true
  | Worker _ => false
  end.

(** The schedule with the steps of the monitor left out. *)
Definition without_monitor (schedule : list (thread * oracle)) : list (thread * oracle) :=
  List.filter (fun x => negb (is_monitor (fst x))) schedule.

(** The titles asked of [wikipedia.page], in order. *)
Fixpoint page_calls (evs : list event) : list (list Z) :=
  match evs with
  | [] => []
  | PageCall title :: evs' => title :: page_calls evs'
  | _ :: evs' => page_calls evs'
  end.

(** The growth in articles of each report of the monitor. *)
Fixpoint report_growths (evs : list event) : list Z :=
  match evs with
  | [] => []
  | Print (MsgReport _ _ count_growth _ _) :: evs' => count_growth :: report_growths evs'
  | _ :: evs' => report_growths evs'
  end.

(** The seconds slept in all. *)
Definition total_sleep (evs : list event) : Z := fold_right Z.add 0 (sleeps evs).

(** The worker is between the check of the target and the count of the
    article that passed it. *)
Definition busy (p : pc) : bool := in_flight p || counting p.

(** The titles fetched so far and the titles held by the workers are all
    different, all in the set of seen titles, and none was in the set [seen0]
    of the start. *)
Definition fetch_invariant (seen0 : gset (list Z)) (s : system) (evs : list event) : Prop :=
  NoDup (page_calls evs ++ pending_all (workers s))
  /\ (forall t, t ∈ page_calls evs ++ pending_all (workers s) ->
                (t ∈ seen_titles (shared s)) /\ (t ∉ seen0))
  /\ (forall t, t ∈ seen0 -> t ∈ seen_titles (shared s)).

(** * Properties *)

(** ** The cleaner *)

Example clean_text_sample : clean_text sample_raw = sample_clean.
Proof. reflexivity. Qed.

Example word_count_sample : word_count (clean_text sample_raw) = 2.
Proof. reflexivity. Qed.

Section Cleaner.

Lemma isspace_SPACE : isspace SPACE = true.
Proof. reflexivity. Qed.

Lemma isspace_kept c : isspace c = true -> kept c = true.
Proof. intros H. unfold kept. rewrite H. apply orb_true_iff. left. apply orb_true_r. Qed.

Lemma kept_SPACE : kept SPACE = true.
Proof. reflexivity. Qed.

Lemma drop_while_split p s :
  exists t, s = t ++ drop_while p s /\ forallb p t = true.
Proof.
  induction s as [|c s IH]; simpl.
  - exists []. split; reflexivity.
  - destruct (p c) eqn:Hc.
    + destruct IH as (t & Heq & Ht). exists (c :: t). simpl. rewrite Hc, Ht.
      split; [f_equal; exact Heq | reflexivity].
    + exists []. split; reflexivity.
Qed.

Lemma drop_while_head p s c s' : drop_while p s = c :: s' -> p c = false.
Proof.
  induction s as [|a s IH]; simpl; [discriminate|].
  destruct (p a) eqn:Ha; [exact IH|]. intros [= -> _]. exact Ha.
Qed.

Lemma drop_while_id p s :
  match s with [] => True | c :: _ => p c = false end -> drop_while p s = s.
Proof. destruct s as [|c s]; simpl; [reflexivity|]. intros ->. reflexivity. Qed.

(** [rstrip] keeps a prefix, cut after a character that is not white space. *)
Lemma rstrip_split s :
  exists t, s = rstrip s ++ t
    /\ (forall w c, rstrip s = w ++ [c] -> isspace c = false).
Proof.
  unfold rstrip. destruct (drop_while_split isspace (rev s)) as (t & Heq & _).
  exists (rev t). split.
  - rewrite <- rev_app_distr, <- Heq. symmetry. apply rev_involutive.
  - intros w c Hw. destruct (drop_while isspace (rev s)) as [|d r] eqn:Hd.
    + simpl in Hw. destruct w; discriminate.
    + apply drop_while_head in Hd. simpl in Hw.
      apply app_inj_tail in Hw. destruct Hw as [_ <-]. exact Hd.
Qed.

Lemma rstrip_id s :
  (forall w c, s = w ++ [c] -> isspace c = false) -> rstrip s = s.
Proof.
  intros Hlast. unfold rstrip. rewrite drop_while_id; [apply rev_involutive|].
  destruct (rev s) as [|c r] eqn:Hr; [exact I|].
  apply (Hlast (rev r)). rewrite <- (rev_involutive s), Hr. reflexivity.
Qed.

Lemma sub_runs_none cls b s :
  forallb (fun c => negb (cls c)) s = true -> sub_runs cls b s = s.
Proof.
  revert b. induction s as [|c s IH]; intros b; simpl; [reflexivity|].
  intros [Hc Hs]%andb_true_iff. apply negb_true_iff in Hc. rewrite Hc.
  f_equal. apply IH, Hs.
Qed.

Lemma sub_runs_dropped_kept b s : forallb kept (sub_runs dropped b s) = true.
Proof.
  revert b. induction s as [|c s IH]; intros b; cbn [sub_runs]; [reflexivity|].
  unfold dropped at 1. destruct (kept c) eqn:Hc; cbn [negb].
  - cbn [forallb]. rewrite Hc. apply IH.
  - destruct b; [apply IH|]. cbn [forallb]. rewrite kept_SPACE. apply IH.
Qed.

Lemma sub_runs_isspace_kept b s :
  forallb kept s = true -> forallb kept (sub_runs isspace b s) = true.
Proof.
  revert b. induction s as [|c s IH]; intros b; cbn [sub_runs forallb]; [reflexivity|].
  intros [Hc Hs]%andb_true_iff. destruct (isspace c).
  - destruct b; cbn [forallb]; [|rewrite kept_SPACE]; apply IH, Hs.
  - cbn [forallb]. rewrite Hc. apply IH, Hs.
Qed.

Lemma sub_runs_isspace_spaced s b :
  spaced (sub_runs isspace b s) = true
  /\ (b = true ->
      match sub_runs isspace b s with [] => True | c :: _ => isspace c = false end).
Proof.
  revert b. induction s as [|c s IH]; intros b; cbn [sub_runs];
    [split; [reflexivity|trivial]|].
  destruct (isspace c) eqn:Hc.
  - destruct b.
    + apply IH.
    + split; [|discriminate]. cbn [spaced]. rewrite isspace_SPACE, Z.eqb_refl.
      destruct (IH true) as [Hs Hh]. rewrite Hs, andb_true_r.
      specialize (Hh eq_refl). destruct (sub_runs isspace true s); [reflexivity|].
      rewrite Hh. reflexivity.
  - split; [|intros _; exact Hc]. cbn [spaced]. rewrite Hc. apply IH.
Qed.

Lemma spaced_tail c s : spaced (c :: s) = true -> spaced s = true.
Proof. simpl. intros [_ H]%andb_true_iff. exact H. Qed.

Lemma spaced_drop_while p s : spaced s = true -> spaced (drop_while p s) = true.
Proof.
  induction s as [|c s IH]; [trivial|]. intros H. simpl.
  destruct (p c); [apply IH, (spaced_tail _ _ H) | exact H].
Qed.

Lemma spaced_prefix s t : spaced (s ++ t) = true -> spaced s = true.
Proof.
  induction s as [|c s IH]; [reflexivity|]. simpl.
  intros [Hc Hs]%andb_true_iff. rewrite (IH Hs), andb_true_r.
  destruct (isspace c); [|reflexivity].
  apply andb_true_iff in Hc as [Hc Hn]. rewrite Hc. simpl.
  destruct s; [reflexivity|exact Hn].
Qed.

Lemma forallb_drop_while (q p : Z -> bool) s :
  forallb q s = true -> forallb q (drop_while p s) = true.
Proof.
  induction s as [|c s IH]; [trivial|]. intros H. simpl.
  destruct (p c); [|exact H]. apply IH. simpl in H.
  apply andb_true_iff in H. apply H.
Qed.

Lemma spaced_ok_of_spaced s :
  spaced s = true -> forallb kept s = true ->
  (forall w c, s = w ++ [c] -> isspace c = false) ->
  spaced_ok s = true.
Proof.
  induction s as [|a s IH]; [reflexivity|]. simpl.
  intros [Ha Hs]%andb_true_iff [Hk Hks]%andb_true_iff Hlast.
  rewrite Hk, IH; [| exact Hs | exact Hks |].
  - rewrite !andb_true_r. destruct (isspace a) eqn:Hsp; [|reflexivity].
    apply andb_true_iff in Ha as [Ha Hn]. rewrite Ha. simpl.
    destruct s as [|d s]; [|exact Hn].
    rewrite (Hlast [] a eq_refl) in Hsp. discriminate.
  - intros w c ->. apply (Hlast (a :: w)). reflexivity.
Qed.

Lemma spaced_ok_kept s : spaced_ok s = true -> forallb kept s = true.
Proof.
  induction s as [|c s IH]; [reflexivity|]. simpl.
  intros [[_ Hk]%andb_true_iff Hs]%andb_true_iff. rewrite Hk. apply IH, Hs.
Qed.

Lemma spaced_ok_last s c : spaced_ok (s ++ [c]) = true -> isspace c = false.
Proof.
  induction s as [|a s IH]; simpl.
  - destruct (isspace c); [|reflexivity]. rewrite andb_false_r. discriminate.
  - intros [_ Hs]%andb_true_iff. apply IH, Hs.
Qed.

Lemma spaced_ok_sub_runs s b :
  spaced_ok s = true ->
  (b = true -> match s with [] => True | c :: _ => isspace c = false end) ->
  sub_runs isspace b s = s.
Proof.
  revert b. induction s as [|c s IH]; intros b; [reflexivity|]. simpl.
  intros [[Hc _]%andb_true_iff Hs]%andb_true_iff Hb.
  destruct (isspace c) eqn:Hsp.
  - destruct b; [specialize (Hb eq_refl); discriminate|].
    apply andb_true_iff in Hc as [Hc Hn]. apply Z.eqb_eq in Hc. subst c.
    f_equal. apply IH; [exact Hs|]. intros _.
    destruct s as [|d s]; [trivial|]. apply negb_true_iff, Hn.
  - f_equal. apply IH; [exact Hs | discriminate].
Qed.

(** A text of the cleaned shape is left as it is. *)
Lemma clean_text_fixed s : cleaned s = true -> clean_text s = s.
Proof.
  unfold cleaned. intros [Hh Hs]%andb_true_iff. unfold clean_text, re_sub_plus.
  rewrite (sub_runs_none dropped).
  2:{ pose proof (spaced_ok_kept _ Hs) as Hk. clear -Hk.
      induction s as [|c s IH]; [reflexivity|]. cbn [forallb] in *.
      apply andb_true_iff in Hk as [Hc Hk]. rewrite (IH Hk). unfold dropped.
      rewrite Hc. reflexivity. }
  rewrite spaced_ok_sub_runs; [| exact Hs | discriminate].
  unfold strip, lstrip. rewrite drop_while_id.
  2:{ destruct s; [exact I|]. apply negb_true_iff, Hh. }
  apply rstrip_id. intros w c ->. apply (spaced_ok_last _ _ Hs).
Qed.

(** The cleaner always returns a text of the cleaned shape. *)
Lemma clean_text_cleaned x : cleaned (clean_text x) = true.
Proof.
  unfold clean_text, re_sub_plus, strip, lstrip.
  set (u := sub_runs dropped false x).
  set (v := sub_runs isspace false u).
  set (v1 := drop_while isspace v).
  assert (Hkv : forallb kept v = true)
    by apply sub_runs_isspace_kept, sub_runs_dropped_kept.
  assert (Hsv : spaced v = true) by apply (sub_runs_isspace_spaced u false).
  assert (Hk1 : forallb kept v1 = true) by (apply forallb_drop_while, Hkv).
  assert (Hs1 : spaced v1 = true) by (apply spaced_drop_while, Hsv).
  assert (Hh1 : match v1 with [] => True | c :: _ => isspace c = false end).
  { destruct v1 as [|c r] eqn:E; [exact I|]. apply (drop_while_head _ _ _ _ E). }
  destruct (rstrip_split v1) as (t & Heq & Hlast).
  set (w := rstrip v1) in *.
  assert (Hkw : forallb kept w = true).
  { rewrite Heq, forallb_app in Hk1. apply andb_true_iff in Hk1. apply Hk1. }
  assert (Hsw : spaced w = true) by (rewrite Heq in Hs1; apply (spaced_prefix _ _ Hs1)).
  unfold cleaned. rewrite (spaced_ok_of_spaced w Hsw Hkw Hlast), andb_true_r.
  destruct w as [|c w']; [reflexivity|]. rewrite Heq in Hh1. simpl in Hh1.
  rewrite Hh1. reflexivity.
Qed.

End Cleaner.

(** C8. The cleaner is idempotent: cleaning a cleaned text changes
    nothing, for every input text. *)
Theorem clean_text_idempotent (x : str) :
  clean_text (clean_text x) = clean_text x.
Proof. apply clean_text_fixed, clean_text_cleaned. Qed.

(** C9 as stated fails: a text made of kept characters, never two U+0020
    in a row, that the cleaner changes, since it starts with a space. *)
Lemma round_trip_fails_on_leading_space :
  allowed_with_single_spaces [SPACE; 0x905] = true
  /\ clean_text [SPACE; 0x905] = [0x905]
  /\ clean_text [SPACE; 0x905] <> [SPACE; 0x905].
Proof. repeat split. discriminate. Qed.

(** C9, amended. A text of kept characters in which white space occurs only
    as a single U+0020 between two other characters (so neither first nor
    last, and no tab or line break) is returned unchanged by the cleaner. *)
Theorem clean_text_round_trip (x : str) :
  cleaned x = true -> clean_text x = x.
Proof. apply clean_text_fixed. Qed.

Lemma clean_text_round_trip_witness :
  cleaned sample_clean = true /\ clean_text sample_clean = sample_clean.
Proof. split; [reflexivity | apply (clean_text_round_trip sample_clean); reflexivity]. Defined.

(** ** Loading the seen titles *)

Section Load.

Lemma startswith_spec (p s : list Z) : startswith p s = true <-> exists b, s = p ++ b.
Proof.
  revert s. induction p as [|a p IH]; intros s; simpl.
  - split; [intros _; exists s; reflexivity | reflexivity].
  - destruct s as [|c s].
    + split; [discriminate | intros [b Hb]; discriminate].
    + rewrite andb_true_iff, Z.eqb_eq, IH. split.
      * intros [-> [b ->]]. exists b. reflexivity.
      * intros [b [= -> ->]]. split; [reflexivity | exists b; reflexivity].
Qed.

(** [contains] is Python's substring test. *)
Lemma contains_spec (p s : list Z) : contains p s = true <-> exists a b, s = a ++ p ++ b.
Proof.
  induction s as [|c s IH].
  - simpl. rewrite orb_false_r, startswith_spec. split.
    + intros [b Hb]. exists [], b. exact Hb.
    + intros (a & b & Hab). destruct a; [exists b; exact Hab | discriminate].
  - cbn [contains]. rewrite orb_true_iff, startswith_spec, IH. split.
    + intros [[b Hb] | (a & b & ->)].
      * exists [], b. exact Hb.
      * exists (c :: a), b. reflexivity.
    + intros (a & b & Hab). destruct a as [|a0 a].
      * left. exists b. exact Hab.
      * right. injection Hab as -> ->. exists a, b. reflexivity.
Qed.

Lemma is_invalid_spec (t : list Z) :
  is_invalid t = false <-> forall patt, In patt invalid_patterns -> contains patt t = false.
Proof.
  unfold is_invalid. split.
  - intros H patt Hin. destruct (contains patt t) eqn:E; [|reflexivity].
    assert (existsb (fun patt => contains patt t) invalid_patterns = true)
      by (apply existsb_exists; exists patt; split; assumption).
    congruence.
  - intros H. destruct (existsb _ _) eqn:E; [|reflexivity].
    apply existsb_exists in E as (patt & Hin & Hc). rewrite (H patt Hin) in Hc.
    discriminate.
Qed.

Lemma read_lines_spec (lines : list (list Z)) (seen : gset (list Z)) (t : list Z) :
  t ∈ read_lines lines seen
  <-> t ∈ seen \/ (t <> [] /\ exists line, In line lines /\ strip line = t).
Proof.
  revert seen. induction lines as [|line lines IH]; intros seen; simpl.
  - split; [auto | intros [H | (_ & l & [] & _)]; exact H].
  - destruct (strip line) as [|c r] eqn:E; rewrite IH.
    + split.
      * intros [H | (Hne & l & Hl & Hs)]; [auto|]. right. split; [exact Hne|].
        exists l. auto.
      * intros [H | (Hne & l & [<- | Hl] & Hs)]; [auto | congruence |].
        right. split; [exact Hne|]. exists l. auto.
    + rewrite elem_of_union, elem_of_singleton. split.
      * intros [[-> | H] | (Hne & l & Hl & Hs)]; [| auto |].
        -- right. split; [discriminate|]. exists line. auto.
        -- right. split; [exact Hne|]. exists l. auto.
      * intros [H | (Hne & l & [<- | Hl] & Hs)]; [auto | |].
        -- left. left. congruence.
        -- right. split; [exact Hne|]. exists l. auto.
Qed.

End Load.

(** C6. Loading strips each line of the seen file and skips the blank ones,
    keeps each identifier once, drops every identifier that contains one of
    the invalid-page markers, and sets the count of written articles to the
    number of identifiers left. *)
Theorem load_filters_and_counts (lines : list (list Z)) :
  exists ids : list (list Z),
    NoDup ids
    /\ (forall t, t ∈ seen_titles (load (Some lines)) <-> In t ids)
    /\ (forall t, In t ids <->
          (t <> [] /\ exists line, In line lines /\ strip line = t)
          /\ forall patt, In patt invalid_patterns -> contains patt t = false)
    /\ total_articles_written (load (Some lines)) = Z.of_nat (length ids).
Proof.
  exists (elements (seen_titles (load (Some lines)))). split; [|split; [|split]].
  - apply NoDup_elements.
  - intros t. rewrite <- list_elem_of_In, elem_of_elements. reflexivity.
  - intros t. rewrite <- list_elem_of_In, elem_of_elements. simpl.
    rewrite elem_of_filter, read_lines_spec, is_invalid_spec.
    rewrite elem_of_empty. tauto.
  - reflexivity.
Qed.

(** ** Sampling a batch *)

Section Retry.

Variable cfg : config.
Variable random : Z -> answer (list (list Z)).

Lemma retry_loop_calls n a :
  (length (random_calls (fst (retry_loop cfg random n a))) <= n)%nat.
Proof.
  revert a. induction n as [|n IH]; intros a; simpl; [lia|].
  destruct (random a) as [titles | msg]; simpl; [lia|].
  destruct (is_transient msg); simpl; [|lia].
  specialize (IH (a + 1)). destruct (retry_loop cfg random n (a + 1)) as [evs r].
  simpl in *. lia.
Qed.

Lemma retry_loop_spec n a :
  exists k : nat,
    (k <= n)%nat
    /\ (forall j : nat, (j < k)%nat -> transient_failure (random (a + Z.of_nat j)) = true)
    /\ (((k < n)%nat
         /\ exists titles_batch,
              random (a + Z.of_nat k) = Returns titles_batch
              /\ retry_loop cfg random n a
                 = (backoff cfg random k a ++ [RandomCall (a + Z.of_nat k)],
                    Some titles_batch))
        \/ ((k < n)%nat
            /\ exists error_msg,
                 random (a + Z.of_nat k) = Raises error_msg
                 /\ is_transient error_msg = false
                 /\ retry_loop cfg random n a
                    = (backoff cfg random k a
                         ++ [RandomCall (a + Z.of_nat k); Print (MsgCritical error_msg)],
                       Some []))
        \/ (k = n
            /\ retry_loop cfg random n a
               = (backoff cfg random k a ++ [Print MsgFailedAfter; Sleep 30], None))).
Proof.
  revert a. induction n as [|n IH]; intros a.
  - exists O. split; [lia|]. split; [intros j Hj; lia|]. right. right.
    split; reflexivity.
  - cbn [retry_loop]. destruct (random a) as [titles | msg] eqn:Ha.
    + exists O. split; [lia|]. split; [intros j Hj; lia|]. left.
      split; [lia|]. exists titles. rewrite Z.add_0_r. split; [exact Ha | reflexivity].
    + destruct (is_transient msg) eqn:Ht.
      * destruct (IH (a + 1)) as (k & Hk & Hfail & Hend).
        assert (Hshift : forall j : nat, a + 1 + Z.of_nat j = a + Z.of_nat (S j))
          by (intros j; lia).
        exists (S k). split; [lia|]. split.
        { intros [|j] Hj.
          - rewrite Z.add_0_r, Ha. exact Ht.
          - rewrite <- Hshift. apply Hfail. lia. }
        rewrite <- Hshift. cbn [backoff]. rewrite Ha. cbn [error_msg_of].
        destruct Hend as [(Hlt & titles & Hr & ->) | [(Hlt & e & Hr & He & ->) | (-> & ->)]].
        -- left. split; [lia|]. exists titles. split; [exact Hr | reflexivity].
        -- right. left. split; [lia|]. exists e. repeat split; assumption.
        -- right. right. split; reflexivity.
      * exists O. split; [lia|]. split; [intros j Hj; lia|]. right. left.
        split; [lia|]. exists msg. rewrite Z.add_0_r. repeat split; assumption.
Qed.

End Retry.

(** C3. A worker that samples a batch calls the source at most
    [MAX_RETRIES] times. Some number [k] of attempts fail with a transient
    error, each followed by a sleep of [RETRY_DELAY * attempt] seconds, and
    then either attempt [k + 1] succeeds and its batch goes to the dedup step,
    or attempt [k + 1] fails with another error and the loop is left at once
    with an empty batch, or all [MAX_RETRIES] attempts are used up and the
    worker sleeps the 30 seconds of cooldown and is back at its stop check.
    The shared state is not touched. *)
Theorem sample_batch_bounded_retries (cfg : config) (o : oracle) (st : state) :
  let random := random_answer o in
  let n := Z.to_nat (MAX_RETRIES cfg) in
  (length (random_calls (snd (worker_step cfg o st SampleBatch))) <= n)%nat
  /\ exists k : nat,
       (k <= n)%nat
       /\ (forall j : nat, (j < k)%nat -> transient_failure (random (1 + Z.of_nat j)) = true)
       /\ (((k < n)%nat
            /\ exists titles_batch,
                 random (1 + Z.of_nat k) = Returns titles_batch
                 /\ worker_step cfg o st SampleBatch
                    = (st, Dedup titles_batch,
                       backoff cfg random k 1 ++ [RandomCall (1 + Z.of_nat k)]))
           \/ ((k < n)%nat
               /\ exists error_msg,
                    random (1 + Z.of_nat k) = Raises error_msg
                    /\ is_transient error_msg = false
                    /\ worker_step cfg o st SampleBatch
                       = (st, Dedup [],
                          backoff cfg random k 1
                            ++ [RandomCall (1 + Z.of_nat k); Print (MsgCritical error_msg)]))
           \/ (k = n
               /\ worker_step cfg o st SampleBatch
                  = (st, CheckStop,
                     backoff cfg random k 1 ++ [Print MsgFailedAfter; Sleep 30]))).
Proof.
  intros random n. split.
  - pose proof (retry_loop_calls cfg random n 1) as H. cbn [worker_step].
    unfold sample_batch. fold random n.
    destruct (retry_loop cfg random n 1) as [evs [titles|]]; exact H.
  - destruct (retry_loop_spec cfg random n 1) as (k & Hk & Hfail & Hend).
    exists k. split; [exact Hk|]. split; [exact Hfail|].
    cbn [worker_step]. unfold sample_batch. fold random n.
    destruct Hend as [(Hlt & titles & Hr & ->) | [(Hlt & e & Hr & He & ->) | (-> & ->)]].
    + left. split; [exact Hlt|]. exists titles. split; [exact Hr | reflexivity].
    + right. left. split; [exact Hlt|]. exists e. repeat split; assumption.
    + right. right. split; reflexivity.
Qed.

Example sample_batch_all_transient :
  sample_batch script_config (fun _ => Raises (lit "HTTP 500"))
  = (backoff script_config (fun _ => Raises (lit "HTTP 500")) 4 1
       ++ [Print MsgFailedAfter; Sleep 30], None)
  /\ sleeps (fst (sample_batch script_config (fun _ => Raises (lit "HTTP 500"))))
     = [10; 20; 30; 40; 30].
Proof. split; reflexivity. Qed.

(** ** Single steps of a worker *)

Section Steps.

Lemma claim_spec (titles_batch : list (list Z)) (seen seen' : gset (list Z))
    (new_titles : list (list Z)) :
  claim titles_batch seen = (seen', new_titles) ->
  NoDup new_titles
  /\ (forall t, t ∈ new_titles -> (t ∉ seen) /\ (t ∈ titles_batch))
  /\ (forall t, t ∈ seen' <-> (t ∈ seen) \/ (t ∈ new_titles))
  /\ (forall t, t ∈ titles_batch -> t ∈ seen').
Proof.
  revert seen seen' new_titles.
  induction titles_batch as [|title rest IH]; intros seen seen' new_titles; simpl.
  - intros [= <- <-]. split; [constructor|]. split; [|split].
    + intros t Ht. inversion Ht.
    + intros t. split; [auto | intros [H | H]; [exact H | inversion H]].
    + intros t Ht. inversion Ht.
  - destruct (decide (title ∈ seen)) as [Hin | Hnin].
    + intros Hc. destruct (IH _ _ _ Hc) as (Hnd & Hnew & Hseen & Hall).
      split; [exact Hnd|]. split; [|split; [exact Hseen|]].
      * intros t Ht. destruct (Hnew t Ht). split; [assumption|]. by constructor.
      * intros t [-> | Ht]%elem_of_cons; [apply Hseen; auto | auto].
    + destruct (claim rest ({[title]} ∪ seen)) as [s1 n1] eqn:Hc.
      intros [= <- <-]. destruct (IH _ _ _ Hc) as (Hnd & Hnew & Hseen & Hall).
      split; [|split; [|split]].
      * constructor; [|exact Hnd]. intros Ht. apply Hnew in Ht as [Ht _].
        apply Ht, elem_of_union_l, elem_of_singleton. reflexivity.
      * intros t [-> | Ht]%elem_of_cons.
        -- split; [exact Hnin | by constructor].
        -- destruct (Hnew t Ht) as [H1 H2]. split; [|by constructor].
           intros Hs. apply H1, elem_of_union_r, Hs.
      * intros t. rewrite Hseen, elem_of_cons, elem_of_union, elem_of_singleton.
        tauto.
      * intros t [-> | Ht]%elem_of_cons; [|auto].
        apply Hseen. left. apply elem_of_union_l, elem_of_singleton. reflexivity.
Qed.

Lemma claim_nil (seen : gset (list Z)) : claim [] seen = (seen, []).
Proof. reflexivity. Qed.

Lemma set_seen_same st : set_seen st (seen_titles st) = st.
Proof. destruct st. reflexivity. Qed.

(** The count of written articles moves in the counting step only. *)
Lemma total_step cfg o st p :
  total_articles_written (fst (fst (worker_step cfg o st p)))
  = match p with
    | CountWrite _ _ _ _ => total_articles_written st + 1
    | _ => total_articles_written st
    end.
Proof.
  destruct p as [| |b|[|t r] w|t r w|t wd r w|w|r]; cbn [worker_step].
  - repeat (destruct (_ <=? _)); reflexivity.
  - destruct (sample_batch cfg (random_answer o)) as [evs [b|]]; reflexivity.
  - destruct (claim b (seen_titles st)) as [seen [|t new]]; [reflexivity|].
    destruct (seen_append o); reflexivity.
  - reflexivity.
  - destruct (_ <=? _); reflexivity.
  - destruct (page o); [|reflexivity..].
    destruct (word_count _ <=? 50); [reflexivity|]. destruct (corpus_append o); reflexivity.
  - reflexivity.
  - destruct (w =? 0); reflexivity.
  - reflexivity.
Qed.

Lemma worker_run_app cfg os1 os2 st p :
  worker_run cfg (os1 ++ os2) st p
  = let '(st1, p1, evs1) := worker_run cfg os1 st p in
    let '(st2, p2, evs2) := worker_run cfg os2 st1 p1 in
    (st2, p2, evs1 ++ evs2).
Proof.
  revert st p. induction os1 as [|o os1 IH]; intros st p; cbn [worker_run app].
  - destruct (worker_run cfg os2 st p) as [[st2 p2] evs2]. reflexivity.
  - destruct (worker_step cfg o st p) as [[st1 p1] evs1]. rewrite IH.
    destruct (worker_run cfg os1 st1 p1) as [[st2 p2] evs2].
    destruct (worker_run cfg os2 st2 p2) as [[st3 p3] evs3].
    rewrite app_assoc. reflexivity.
Qed.

End Steps.

(** C5. A fetched article whose cleaned text has 50 words or fewer is not
    appended to the corpus and is not counted: the step leaves the shared
    state as it was and the worker goes on to the next title, past the
    counting step. *)
Theorem short_article_is_skipped (cfg : config) (o : oracle) (st : state)
    (title : list Z) (rest : list (list Z)) (written : Z) (text : list Z) :
  page o = Content text ->
  word_count (clean_text text) <= 50 ->
  exists evs,
    worker_step cfg o st (FetchAndWrite title rest written)
    = (st, FetchNext rest written, evs)
    /\ corpus_titles evs = []
    /\ total_articles_written (fst (fst (worker_step cfg o st (FetchNext rest written))))
       = total_articles_written st.
Proof.
  intros Hpage Hshort. cbn [worker_step]. rewrite Hpage.
  apply Z.leb_le in Hshort. rewrite Hshort. eexists. split; [reflexivity|].
  split; [reflexivity|]. apply (total_step cfg o st (FetchNext rest written)).
Qed.

Lemma short_article_is_skipped_witness :
  page (with_page short_text) = Content short_text
  /\ word_count (clean_text short_text) <= 50
  /\ exists evs,
       worker_step script_config (with_page short_text) (fresh_state 0)
         (FetchAndWrite (lit "A") [] 0)
       = (fresh_state 0, FetchNext [] 0, evs)
       /\ corpus_titles evs = []
       /\ total_articles_written
            (fst (fst (worker_step script_config (with_page short_text) (fresh_state 0)
                         (FetchNext [] 0))))
          = total_articles_written (fresh_state 0).
Proof.
  split; [reflexivity|]. split; [vm_compute; discriminate|].
  apply (short_article_is_skipped script_config (with_page short_text) (fresh_state 0)
           (lit "A") [] 0 short_text); [reflexivity | vm_compute; discriminate].
Defined.

(** An article of 51 words is appended and goes on to be counted. *)
Example long_article_is_written :
  worker_step script_config (with_page long_text) (fresh_state 0)
    (FetchAndWrite (lit "A") [] 0)
  = (fresh_state 0, CountWrite (lit "A") 51 [] 0,
     [PageCall (lit "A"); CorpusAppend (lit "A") (clean_text long_text)]).
Proof. reflexivity. Qed.

(** C7. When the append to the seen file raises, the error is printed and
    nothing else changes course: every title of the batch is in the
    in-memory set afterwards, so that no later dedup step, whatever the set
    has grown to, claims one of them again, and the worker goes on to fetch
    the titles it has just claimed. *)
Theorem seen_file_error_is_not_fatal (cfg : config) (o : oracle) (st : state)
    (titles_batch : list (list Z)) (error_msg : list Z) (written : nat) :
  seen_append o = AppendRaises error_msg written ->
  snd (claim titles_batch (seen_titles st)) <> [] ->
  exists st' evs,
    worker_step cfg o st (Dedup titles_batch)
    = (st', FetchNext (snd (claim titles_batch (seen_titles st))) 0, evs)
    /\ In (Print (MsgSeenFileError error_msg)) evs
    /\ (forall t, t ∈ titles_batch -> t ∈ seen_titles st')
    /\ (forall (later : gset (list Z)) (batch : list (list Z)) t,
          seen_titles st' ⊆ later -> t ∈ titles_batch -> t ∉ snd (claim batch later)).
Proof.
  intros Happend Hnew. cbn [worker_step].
  destruct (claim titles_batch (seen_titles st)) as [seen new_titles] eqn:Hc.
  cbn [snd] in *. destruct new_titles as [|t0 new]; [congruence|]. rewrite Happend.
  destruct (claim_spec _ _ _ _ Hc) as (_ & _ & _ & Hall).
  eexists _, _. split; [reflexivity|]. split; [left; reflexivity|]. split.
  - intros t Ht. cbn. apply Hall, Ht.
  - intros later batch t Hsub Ht Hagain. cbn in Hsub.
    destruct (claim batch later) as [s2 n2] eqn:Hc2. cbn [snd] in Hagain.
    destruct (claim_spec _ _ _ _ Hc2) as (_ & Hfresh & _ & _).
    destruct (Hfresh t Hagain) as [Hnot _]. apply Hnot, Hsub, Hall, Ht.
Qed.

Lemma seen_file_error_is_not_fatal_witness :
  seen_append (with_seen_file_error (lit "disk")) = AppendRaises (lit "disk") 0
  /\ snd (claim [lit "A"] (seen_titles (fresh_state 0))) <> []
  /\ exists st' evs,
       worker_step script_config (with_seen_file_error (lit "disk")) (fresh_state 0)
         (Dedup [lit "A"])
       = (st', FetchNext (snd (claim [lit "A"] (seen_titles (fresh_state 0)))) 0, evs)
       /\ In (Print (MsgSeenFileError (lit "disk"))) evs
       /\ (forall t, t ∈ [lit "A"] -> t ∈ seen_titles st')
       /\ (forall (later : gset (list Z)) (batch : list (list Z)) t,
             seen_titles st' ⊆ later -> t ∈ [lit "A"] -> t ∉ snd (claim batch later)).
Proof.
  split; [reflexivity|]. split; [vm_compute; discriminate|].
  apply (seen_file_error_is_not_fatal script_config (with_seen_file_error (lit "disk"))
           (fresh_state 0) [lit "A"] (lit "disk") 0%nat);
    [reflexivity | vm_compute; discriminate].
Defined.

(** ** The counter of empty batches *)

(** C2 as stated fails on this iteration of a worker on its own: it claims
    the new title "A", finds its article too short and writes nothing; the
    counter, at 5 before, is set back to 0 by the dedup step all the same, and
    stands at 1 when the iteration ends. *)
Lemma reset_without_accepted_write :
  let iteration :=
    [quiet; with_batch [lit "A"]; quiet; quiet; with_page short_text; quiet; quiet] in
  consecutive_empty_batches (fresh_state 5) = 5
  /\ (let '(st, p, _) := worker_run script_config (firstn 3 iteration) (fresh_state 5) CheckStop in
      p = FetchNext [lit "A"] 0 /\ consecutive_empty_batches st = 0)
  /\ (let '(st, p, evs) := worker_run script_config iteration (fresh_state 5) CheckStop in
      p = CheckStop /\ corpus_titles evs = []
      /\ total_articles_written st = 0 /\ consecutive_empty_batches st = 1).
Proof. vm_compute. repeat split. Qed.

(** C2, amended. The counter of consecutive empty batches is set back to 0
    exactly by the dedup step of an iteration that claims at least one new
    identifier, before any article is fetched and whether or not one is
    written afterwards; no other step of a worker brings a positive counter
    to 0. *)
Theorem empty_counter_reset_iff_claimed (cfg : config) (o : oracle) (st : state) (p : pc) :
  0 < consecutive_empty_batches st ->
  consecutive_empty_batches (fst (fst (worker_step cfg o st p))) = 0
  <-> exists titles_batch,
        p = Dedup titles_batch /\ snd (claim titles_batch (seen_titles st)) <> [].
Proof.
  intros Hpos.
  destruct p as [| |b|[|t r] w|t r w|t wd r w|w|r]; cbn [worker_step].
  - split; [|intros (b & [=] & _)].
    repeat (destruct (_ <=? _)); cbn; lia.
  - split; [|intros (b & [=] & _)].
    destruct (sample_batch cfg (random_answer o)) as [evs [b|]]; cbn; lia.
  - destruct (claim b (seen_titles st)) as [seen [|t new]] eqn:Hc.
    + cbn. split; [lia|]. intros (b' & [= <-] & Hne). rewrite Hc in Hne. cbn in Hne.
      congruence.
    + split.
      * intros _. exists b. rewrite Hc. split; [reflexivity | discriminate].
      * intros _. destruct (seen_append o); reflexivity.
  - cbn. split; [lia | intros (b & [=] & _)].
  - split; [|intros (b & [=] & _)]. destruct (_ <=? _); cbn; lia.
  - split; [|intros (b & [=] & _)].
    destruct (page o); [|cbn; lia..].
    destruct (_ <=? _); [cbn; lia|]. destruct (corpus_append o); cbn; lia.
  - cbn. split; [lia | intros (b & [=] & _)].
  - split; [|intros (b & [=] & _)]. destruct (w =? 0); cbn; lia.
  - cbn. split; [lia | intros (b & [=] & _)].
Qed.

Lemma empty_counter_reset_iff_claimed_witness :
  0 < consecutive_empty_batches (fresh_state 5)
  /\ (consecutive_empty_batches
        (fst (fst (worker_step script_config quiet (fresh_state 5) (Dedup [lit "A"])))) = 0
      <-> exists titles_batch,
            Dedup [lit "A"] = Dedup titles_batch
            /\ snd (claim titles_batch (seen_titles (fresh_state 5))) <> []).
Proof.
  split; [reflexivity|].
  apply (empty_counter_reset_iff_claimed script_config quiet (fresh_state 5) (Dedup [lit "A"])).
  reflexivity.
Defined.

(** ** Errors of the source that are not transient *)

Lemma sleeps_app evs1 evs2 : sleeps (evs1 ++ evs2) = sleeps evs1 ++ sleeps evs2.
Proof.
  induction evs1 as [|e evs1 IH]; [reflexivity|].
  destruct e; cbn [sleeps app]; rewrite IH; reflexivity.
Qed.

Lemma sleeps_backoff cfg random k a : length (sleeps (backoff cfg random k a)) = k.
Proof.
  revert a. induction k as [|k IH]; intros a; [reflexivity|].
  cbn [backoff sleeps length]. rewrite IH. reflexivity.
Qed.

Lemma corpus_titles_app evs1 evs2 :
  corpus_titles (evs1 ++ evs2) = corpus_titles evs1 ++ corpus_titles evs2.
Proof.
  induction evs1 as [|e evs1 IH]; [reflexivity|].
  destruct e; cbn [corpus_titles app]; rewrite IH; reflexivity.
Qed.

Lemma corpus_titles_backoff cfg random k a : corpus_titles (backoff cfg random k a) = [].
Proof. revert a. induction k as [|k IH]; intros a; [reflexivity|]. cbn. apply IH. Qed.

Section Permanent.

Variable cfg : config.
Variable o : oracle.
Variable k : nat.
Variable error_msg : list Z.
Hypothesis Hfail : permanent_failure_at cfg (random_answer o) k error_msg.

Lemma sample_batch_permanent :
  sample_batch cfg (random_answer o)
  = (backoff cfg (random_answer o) k 1
       ++ [RandomCall (1 + Z.of_nat k); Print (MsgCritical error_msg)], Some []).
Proof.
  destruct Hfail as (Hk & Htrans & Hperm & Hnt).
  destruct (retry_loop_spec cfg (random_answer o) (Z.to_nat (MAX_RETRIES cfg)) 1)
    as (k' & Hk' & Htrans' & Hend).
  assert (Hkk : k' = k).
  { destruct (lt_eq_lt_dec k' k) as [[Hlt | Heq] | Hgt]; [| exact Heq |].
    - specialize (Htrans k' Hlt).
      destruct Hend as [(_ & b & Hr & _) | [(_ & e & Hr & He & _) | (-> & _)]].
      + rewrite Hr in Htrans. discriminate.
      + rewrite Hr in Htrans. cbn in Htrans. congruence.
      + lia.
    - specialize (Htrans' k Hgt). rewrite Hperm in Htrans'. cbn in Htrans'. congruence. }
  subst k'. unfold sample_batch.
  destruct Hend as [(_ & b & Hr & _) | [(_ & e & Hr & He & ->) | (-> & _)]].
  - congruence.
  - rewrite Hperm in Hr. injection Hr as <-. reflexivity.
  - lia.
Qed.

(** From the sampling step: an empty batch, then one more on the counter. *)
Lemma permanent_iteration st :
  worker_run cfg [o; o] st SampleBatch
  = (set_empty st (consecutive_empty_batches st + 1), CheckStop,
     (backoff cfg (random_answer o) k 1
        ++ [RandomCall (1 + Z.of_nat k); Print (MsgCritical error_msg)])
     ++ [Print (MsgNoNewTitles (consecutive_empty_batches st + 1))] ++ []).
Proof.
  cbn [worker_run]. cbn [worker_step]. rewrite sample_batch_permanent.
  cbn [worker_step claim]. rewrite set_seen_same. reflexivity.
Qed.

Lemma permanent_rounds (m : nat) st :
  total_articles_written st < NUM_ARTICLES cfg ->
  Z.of_nat m = CONSECUTIVE_EMPTY_THRESHOLD cfg - consecutive_empty_batches st ->
  exists evs,
    worker_run cfg (repeat o (3 * m + 1)) st CheckStop
    = (set_empty st (CONSECUTIVE_EMPTY_THRESHOLD cfg), Stopped NoNewArticles, evs)
    /\ corpus_titles evs = [].
Proof.
  revert st. induction m as [|m IH]; intros st Htotal Hm.
  - cbn [Nat.mul Nat.add repeat worker_run worker_step].
    replace (NUM_ARTICLES cfg <=? total_articles_written st) with false
      by (symmetry; apply Z.leb_gt; exact Htotal).
    replace (CONSECUTIVE_EMPTY_THRESHOLD cfg <=? consecutive_empty_batches st) with true
      by (symmetry; apply Z.leb_le; lia).
    exists ([Print MsgStopNoNew] ++ []). split; [|reflexivity].
    assert (He : consecutive_empty_batches st = CONSECUTIVE_EMPTY_THRESHOLD cfg) by lia.
    rewrite <- He. destruct st; reflexivity.
  - replace (repeat o (3 * S m + 1)) with ([o] ++ [o; o] ++ repeat o (3 * m + 1))
      by (replace (3 * S m + 1)%nat with (S (S (S (3 * m + 1)))) by lia; reflexivity).
    rewrite worker_run_app. cbn [worker_run worker_step].
    replace (NUM_ARTICLES cfg <=? total_articles_written st) with false
      by (symmetry; apply Z.leb_gt; exact Htotal).
    replace (CONSECUTIVE_EMPTY_THRESHOLD cfg <=? consecutive_empty_batches st) with false
      by (symmetry; apply Z.leb_gt; lia).
    rewrite worker_run_app, permanent_iteration.
    destruct (IH (set_empty st (consecutive_empty_batches st + 1))) as (evs & Hevs & Hnone).
    + exact Htotal.
    + cbn. lia.
    + rewrite Hevs. eexists. split; [reflexivity|].
      rewrite !corpus_titles_app, corpus_titles_backoff, Hnone. reflexivity.
Qed.

End Permanent.

(** C10. When the sampling of a batch meets an error that is not transient,
    at the first attempt or after [k] transient failures, the worker leaves
    the retry loop without the cooldown (it has slept [k] times, once per
    transient failure, and no more) and hands an empty batch to the dedup
    step, which adds 1 to the counter of consecutive empty batches under the
    lock. A worker that meets such an error in every iteration therefore
    stops for lack of new articles, the counter standing at the threshold
    and nothing written: with the counter [m] below the threshold, on its
    step number [3 * m + 1]. *)
Theorem permanent_errors_reach_the_stop (cfg : config) (o : oracle) (k : nat)
    (error_msg : list Z) (st : state) :
  permanent_failure_at cfg (random_answer o) k error_msg ->
  total_articles_written st < NUM_ARTICLES cfg ->
  consecutive_empty_batches st <= CONSECUTIVE_EMPTY_THRESHOLD cfg ->
  (exists evs,
     worker_step cfg o st SampleBatch = (st, Dedup [], evs)
     /\ evs = backoff cfg (random_answer o) k 1
                ++ [RandomCall (1 + Z.of_nat k); Print (MsgCritical error_msg)]
     /\ length (sleeps evs) = k)
  /\ worker_step cfg o st (Dedup [])
     = (set_empty st (consecutive_empty_batches st + 1), CheckStop,
        [Print (MsgNoNewTitles (consecutive_empty_batches st + 1))])
  /\ exists evs,
       worker_run cfg
         (repeat o (3 * Z.to_nat (CONSECUTIVE_EMPTY_THRESHOLD cfg
                                  - consecutive_empty_batches st) + 1))
         st CheckStop
       = (set_empty st (CONSECUTIVE_EMPTY_THRESHOLD cfg), Stopped NoNewArticles, evs)
       /\ corpus_titles evs = [].
Proof.
  intros Hfail Htotal Hle. split; [|split].
  - eexists. cbn [worker_step]. rewrite (sample_batch_permanent cfg o k error_msg Hfail).
    split; [reflexivity|]. split; [reflexivity|].
    rewrite sleeps_app, length_app, sleeps_backoff. cbn. lia.
  - cbn [worker_step claim]. rewrite set_seen_same. reflexivity.
  - apply (permanent_rounds cfg o k error_msg Hfail); [exact Htotal | lia].
Qed.

Lemma permanent_errors_reach_the_stop_witness :
  permanent_failure_at script_config
    (random_answer (with_random_error (lit "bad request"))) 0 (lit "bad request")
  /\ total_articles_written (fresh_state 0) < NUM_ARTICLES script_config
  /\ consecutive_empty_batches (fresh_state 0) <= CONSECUTIVE_EMPTY_THRESHOLD script_config
  /\ exists evs,
       worker_run script_config (repeat (with_random_error (lit "bad request")) 301)
         (fresh_state 0) CheckStop
       = (set_empty (fresh_state 0) 100, Stopped NoNewArticles, evs)
       /\ corpus_titles evs = [].
Proof.
  assert (Hfail : permanent_failure_at script_config
            (random_answer (with_random_error (lit "bad request"))) 0 (lit "bad request")).
  { split; [cbn; lia|]. split; [intros j Hj; lia|]. split; reflexivity. }
  assert (Hle : consecutive_empty_batches (fresh_state 0)
                <= CONSECUTIVE_EMPTY_THRESHOLD script_config) by (cbn; lia).
  split; [exact Hfail|]. split; [reflexivity|]. split; [exact Hle|].
  exact (proj2 (proj2 (permanent_errors_reach_the_stop script_config
                         (with_random_error (lit "bad request")) 0 (lit "bad request")
                         (fresh_state 0) Hfail eq_refl Hle))).
Defined.

(** ** Workers side by side: no title twice *)

Section Dedup.

Variable cfg : config.

Lemma NoDup_of_submseteq (l k : list (list Z)) : l ⊆+ k -> NoDup k -> NoDup l.
Proof.
  intros Hsub Hk. apply submseteq_Permutation in Hsub as [k' Hk'].
  rewrite Hk' in Hk. apply NoDup_app in Hk. apply Hk.
Qed.

Lemma retry_loop_corpus random n a :
  corpus_titles (fst (retry_loop cfg random n a)) = [].
Proof.
  revert a. induction n as [|n IH]; intros a; cbn [retry_loop]; [reflexivity|].
  destruct (random a) as [b | msg]; [reflexivity|].
  destruct (is_transient msg); [|reflexivity].
  specialize (IH (a + 1)). destruct (retry_loop cfg random n (a + 1)) as [ev r].
  exact IH.
Qed.

(** What one step of a worker does to the titles: it may claim new ones,
    which were not in the set and are put in it, and the titles it has
    written or still holds come from those it held or has just claimed. *)
Lemma worker_step_titles o st p st' p' evs :
  worker_step cfg o st p = (st', p', evs) ->
  exists (new_titles : list (list Z)) (n : nat),
    NoDup new_titles
    /\ (forall t, t ∈ new_titles -> t ∉ seen_titles st)
    /\ (forall t, t ∈ seen_titles st' <-> (t ∈ seen_titles st) \/ (t ∈ new_titles))
    /\ corpus_titles evs ++ pending p' ⊆+ pending p ++ new_titles
    /\ seen_file st' = seen_file st ++ take n new_titles.
Proof.
  assert (Hsame : forall q ev, corpus_titles ev ++ pending q ⊆+ pending p ->
            exists (new_titles : list (list Z)) (n : nat),
              NoDup new_titles
              /\ (forall t, t ∈ new_titles -> t ∉ seen_titles st)
              /\ (forall t, t ∈ seen_titles st <-> (t ∈ seen_titles st) \/ (t ∈ new_titles))
              /\ corpus_titles ev ++ pending q ⊆+ pending p ++ new_titles
              /\ seen_file st = seen_file st ++ take n new_titles).
  { intros q ev Hsub. exists [], 0%nat. split; [constructor|]. split; [|split; [|split]].
    - intros t Ht. inversion Ht.
    - intros t. split; [auto | intros [H | H]; [exact H | inversion H]].
    - rewrite app_nil_r. exact Hsub.
    - rewrite app_nil_r. reflexivity. }
  destruct p as [| |b|[|t r] w|t r w|t wd r w|w|r]; cbn [worker_step].
  - repeat (destruct (_ <=? _)); intros [= <- <- <-]; apply Hsame; reflexivity.
  - pose proof (retry_loop_corpus (random_answer o) (Z.to_nat (MAX_RETRIES cfg)) 1) as Hr.
    fold (sample_batch cfg (random_answer o)) in Hr.
    destruct (sample_batch cfg (random_answer o)) as [ev [b|]];
      intros [= <- <- <-]; apply Hsame; cbn [pending fst] in *;
      rewrite Hr; reflexivity.
  - destruct (claim b (seen_titles st)) as [seen new] eqn:Hc.
    destruct (claim_spec _ _ _ _ Hc) as (Hnd & Hfresh & Hseen & _).
    destruct new as [|t new].
    + intros [= <- <- <-]. exists [], 0%nat. cbn.
      split; [constructor|]. split; [intros t Ht; inversion Ht|].
      split; [exact Hseen|]. split; [reflexivity|].
      rewrite app_nil_r. reflexivity.
    + destruct (seen_append o) as [|msg n]; intros [= <- <- <-].
      * exists (t :: new), (length (t :: new)). cbn [pending corpus_titles app].
        split; [exact Hnd|]. split; [intros t' Ht'; apply Hfresh, Ht'|].
        split; [exact Hseen|]. split; [reflexivity|].
        rewrite take_ge by lia. reflexivity.
      * exists (t :: new), n. cbn [pending corpus_titles app].
        split; [exact Hnd|]. split; [intros t' Ht'; apply Hfresh, Ht'|].
        split; [exact Hseen|]. split; reflexivity.
  - intros [= <- <- <-]; apply Hsame; reflexivity.
  - destruct (_ <=? _); intros [= <- <- <-]; apply Hsame; cbn [pending corpus_titles app].
    + apply submseteq_nil_l.
    + reflexivity.
  - destruct (page o);
      [destruct (_ <=? _); [|destruct (corpus_append o)] |..];
      intros [= <- <- <-]; apply Hsame; cbn [pending corpus_titles app];
      try reflexivity; apply submseteq_cons, reflexivity.
  - intros [= <- <- <-]; apply Hsame; reflexivity.
  - destruct (w =? 0); intros [= <- <- <-]; apply Hsame; reflexivity.
  - intros [= <- <- <-]; apply Hsame; reflexivity.
Qed.

Lemma pending_all_insert (ws : list pc) (i : nat) (p p' : pc) :
  ws !! i = Some p ->
  exists l1 l2,
    pending_all ws = l1 ++ pending p ++ l2
    /\ pending_all (<[ i := p' ]> ws) = l1 ++ pending p' ++ l2.
Proof.
  revert i. induction ws as [|q ws IH]; intros i; [discriminate|].
  destruct i as [|i].
  - intros [= ->]. exists [], (pending_all ws). split; reflexivity.
  - intros Hi. destruct (IH i Hi) as (l1 & l2 & H1 & H2).
    exists (pending q ++ l1), l2.
    change (pending_all (q :: ws)) with (pending q ++ pending_all ws).
    change (pending_all (<[ S i := p' ]> (q :: ws)))
      with (pending q ++ pending_all (<[ i := p' ]> ws)).
    rewrite H1, H2, <- !app_assoc. split; reflexivity.
Qed.

Lemma pending_all_replicate n : pending_all (replicate n CheckStop) = [].
Proof. induction n as [|n IH]; [reflexivity | exact IH]. Qed.

Lemma monitor_step_corpus o st m :
  corpus_titles (snd (monitor_step cfg o st m)) = [].
Proof.
  destruct m; cbn; [|reflexivity].
  repeat (destruct (_ <=? _); [reflexivity|]). destruct (getsize o); reflexivity.
Qed.

Lemma titles_invariant_step st0 s evs who o :
  titles_invariant st0 s evs ->
  titles_invariant st0 (fst (sys_step cfg who o s)) (evs ++ snd (sys_step cfg who o s)).
Proof.
  intros (Hnd & Hin & Hmono & appended & Hfile & Hand & Hain).
  destruct who as [i|]; cbn [sys_step].
  - destruct (workers s !! i) as [p|] eqn:Hi.
    2:{ cbn [fst snd]. rewrite app_nil_r. repeat split; try assumption.
        exists appended. auto. }
    destruct (worker_step cfg o (shared s) p) as [[st' p'] ev] eqn:Hstep.
    unfold titles_invariant. cbn [fst snd shared workers].
    destruct (worker_step_titles _ _ _ _ _ _ Hstep)
      as (new & n & Hnew & Hfresh & Hseen & Hsub & Hf).
    destruct (pending_all_insert _ _ _ p' Hi) as (l1 & l2 & Hp & Hp').
    rewrite Hp in Hnd, Hin. rewrite Hp', corpus_titles_app.
    set (C := corpus_titles evs) in *. set (E := corpus_titles ev) in *.
    assert (Hall : (C ++ E) ++ l1 ++ pending p' ++ l2
                   ⊆+ (C ++ l1 ++ pending p ++ l2) ++ new).
    { transitivity ((E ++ pending p') ++ C ++ l1 ++ l2); [apply Permutation_submseteq; solve_Permutation|].
      transitivity ((pending p ++ new) ++ C ++ l1 ++ l2);
        [apply submseteq_skips_r, Hsub | apply Permutation_submseteq; solve_Permutation]. }
    assert (Hbig : NoDup ((C ++ l1 ++ pending p ++ l2) ++ new)).
    { apply NoDup_app. split; [exact Hnd|]. split; [|exact Hnew].
      intros t Ht Ht'. apply (Hfresh t Ht'), Hin, Ht. }
    split; [exact (NoDup_of_submseteq _ _ Hall Hbig)|]. split; [|split].
    + intros t Ht. apply Hseen. eapply elem_of_submseteq in Ht; [|exact Hall].
      apply elem_of_app in Ht as [Ht | Ht]; [left; apply Hin, Ht | right; exact Ht].
    + intros t Ht. apply Hseen. left. apply Hmono, Ht.
    + exists (appended ++ take n new). split; [rewrite Hf, Hfile, app_assoc; reflexivity|].
      split.
      * apply NoDup_app. split; [exact Hand|]. split.
        -- intros t Ht Ht'. apply (Hfresh t); [|apply Hain, Ht].
           eapply elem_of_submseteq; [exact Ht' | apply submseteq_take].
        -- eapply sublist_NoDup; [exact Hnew | apply sublist_take].
      * intros t [Ht | Ht]%elem_of_app.
        -- split; [apply Hseen; left; apply Hain, Ht | apply Hain, Ht].
        -- assert (Ht' : t ∈ new)
             by (eapply elem_of_submseteq; [exact Ht | apply submseteq_take]).
           split; [apply Hseen; right; exact Ht'|].
           intros H0. apply (Hfresh t Ht'), Hmono, H0.
  - pose proof (monitor_step_corpus o (shared s) (monitor s)) as Hm.
    destruct (monitor_step cfg o (shared s) (monitor s)) as [m ev].
    unfold titles_invariant. cbn [fst snd shared workers] in *.
    rewrite corpus_titles_app, Hm, app_nil_r.
    repeat split; try assumption. exists appended. auto.
Qed.

Lemma titles_invariant_run st0 schedule s evs :
  titles_invariant st0 s evs ->
  titles_invariant st0 (fst (run cfg schedule s)) (evs ++ snd (run cfg schedule s)).
Proof.
  revert s evs. induction schedule as [|[who o] schedule IH]; intros s evs Hinv.
  - cbn. rewrite app_nil_r. exact Hinv.
  - cbn [run]. pose proof (titles_invariant_step st0 s evs who o Hinv) as Hstep.
    destruct (sys_step cfg who o s) as [s1 evs1]. cbn [fst snd] in Hstep.
    specialize (IH s1 (evs ++ evs1) Hstep).
    destruct (run cfg schedule s1) as [s2 evs2]. cbn [fst snd] in *.
    rewrite app_assoc. exact IH.
Qed.

Lemma titles_invariant_start file : titles_invariant (load file) (start cfg file) [].
Proof.
  unfold titles_invariant, start. cbn [shared workers corpus_titles app].
  rewrite pending_all_replicate.
  split; [constructor|]. split; [intros t Ht; inversion Ht|]. split; [auto|].
  exists []. rewrite app_nil_r. split; [reflexivity|]. split; [constructor|].
  intros t Ht. inversion Ht.
Qed.

End Dedup.

(** C1 as stated fails for the seen file: with the single line "A (B)" in
    it, the load drops the title from the set because of its parentheses, the
    first batch brings it again, and the worker appends it to the file a
    second time. *)
Lemma seen_file_repeats_filtered_title :
  let file := [lit "A (B)"] in
  let schedule :=
    [(Worker 0, quiet); (Worker 0, with_batch [lit "A (B)"]); (Worker 0, quiet)] in
  let s := fst (run script_config schedule (start script_config (Some file))) in
  NoDup file
  /\ seen_file (shared s) = [lit "A (B)"; lit "A (B)"]
  /\ ~ NoDup (seen_file (shared s)).
Proof.
  cbv zeta. split; [apply NoDup_singleton|].
  assert (Hfile : seen_file (shared (fst (run script_config
            [(Worker 0, quiet); (Worker 0, with_batch [lit "A (B)"]); (Worker 0, quiet)]
            (start script_config (Some [lit "A (B)"])))))
          = [lit "A (B)"; lit "A (B)"]) by (vm_compute; reflexivity).
  split; [exact Hfile|]. rewrite Hfile. intros Hnd.
  apply NoDup_cons in Hnd as [Hnot _]. apply Hnot. left.
Qed.

(** C1, amended. Whatever the interleaving of the workers and the monitor
    and whatever the outside world answers, no title has its text appended to
    the corpus twice in one run, and the titles that the run appends to the
    seen file are all different and none of them was in the set of seen
    titles when the workers started. (The file as a whole can hold a title
    twice: one that the load had dropped from the set, or one that was already
    there twice.) *)
Theorem no_title_handled_twice (cfg : config) (file : option (list (list Z)))
    (schedule : list (thread * oracle)) :
  let result := run cfg schedule (start cfg file) in
  NoDup (corpus_titles (snd result))
  /\ exists appended,
       seen_file (shared (fst result)) = seen_file (load file) ++ appended
       /\ NoDup appended
       /\ forall t, t ∈ appended -> t ∉ seen_titles (load file).
Proof.
  intros result.
  destruct (titles_invariant_run cfg (load file) schedule (start cfg file) []
              (titles_invariant_start cfg file))
    as (Hnd & _ & _ & appended & Hfile & Hand & Hain).
  fold result in Hnd, Hfile, Hain. cbn [app] in Hnd. split.
  - apply NoDup_app in Hnd. apply Hnd.
  - exists appended. split; [exact Hfile|]. split; [exact Hand|].
    intros t Ht. apply Hain, Ht.
Qed.

(** ** Reaching the target *)

Section Target.

Variable cfg : config.

Lemma in_flight_count_cons q ws :
  in_flight_count (q :: ws) = (Nat.b2n (in_flight q) + in_flight_count ws)%nat.
Proof. unfold in_flight_count. cbn. destruct (in_flight q); reflexivity. Qed.

Lemma in_flight_count_le ws : (in_flight_count ws <= length ws)%nat.
Proof.
  induction ws as [|q ws IH]; [reflexivity|]. rewrite in_flight_count_cons.
  cbn [length]. destruct (in_flight q); cbn; lia.
Qed.

Lemma in_flight_count_insert (ws : list pc) (i : nat) (p p' : pc) :
  ws !! i = Some p ->
  (in_flight_count (<[ i := p' ]> ws) + Nat.b2n (in_flight p)
   = in_flight_count ws + Nat.b2n (in_flight p'))%nat.
Proof.
  revert i. induction ws as [|q ws IH]; intros i; [discriminate|].
  destruct i as [|i].
  - intros [= ->]. change (<[ 0%nat := p' ]> (p :: ws)) with (p' :: ws).
    rewrite !in_flight_count_cons. lia.
  - intros Hi. specialize (IH i Hi).
    change (<[ S i := p' ]> (q :: ws)) with (q :: <[ i := p' ]> ws).
    rewrite !in_flight_count_cons. lia.
Qed.

Lemma in_flight_count_lt (ws : list pc) (i : nat) (p : pc) :
  ws !! i = Some p -> in_flight p = false -> (in_flight_count ws < length ws)%nat.
Proof.
  revert i. induction ws as [|q ws IH]; intros i; [discriminate|].
  rewrite in_flight_count_cons. cbn [length]. destruct i as [|i].
  - intros [= ->] Hp. pose proof (in_flight_count_le ws). rewrite Hp. cbn. lia.
  - intros Hi Hp. specialize (IH i Hi Hp). destruct (in_flight q); cbn; lia.
Qed.

Lemma total_step_mono o st p :
  total_articles_written st
  <= total_articles_written (fst (fst (worker_step cfg o st p))).
Proof. rewrite total_step. destruct p; lia. Qed.

(** Once the target is reached, a step appends to the corpus only for a
    worker in flight, which is in flight no longer afterwards, and no
    worker gets in flight. *)
Lemma worker_step_after_target o st p :
  NUM_ARTICLES cfg <= total_articles_written st ->
  (length (corpus_titles (snd (worker_step cfg o st p)))
   + Nat.b2n (in_flight (snd (fst (worker_step cfg o st p))))
   <= Nat.b2n (in_flight p))%nat.
Proof.
  intros Hreached. apply Z.leb_le in Hreached.
  destruct p as [| |b|[|t r] w|t r w|t wd r w|w|r]; cbn [worker_step].
  - rewrite Hreached. cbn. lia.
  - pose proof (retry_loop_corpus cfg (random_answer o) (Z.to_nat (MAX_RETRIES cfg)) 1) as Hr.
    fold (sample_batch cfg (random_answer o)) in Hr.
    destruct (sample_batch cfg (random_answer o)) as [ev [b|]]; cbn in *; rewrite Hr;
      cbn; lia.
  - destruct (claim b (seen_titles st)) as [seen [|t new]]; [cbn; lia|].
    destruct (seen_append o); cbn; lia.
  - cbn. lia.
  - rewrite Hreached. cbn. lia.
  - destruct (page o); [|cbn; lia..].
    destruct (word_count _ <=? 50); [cbn; lia|]. destruct (corpus_append o); cbn; lia.
  - cbn. lia.
  - destruct (w =? 0); cbn; lia.
  - cbn. lia.
Qed.

(** The step that brings the count to the target leaves its worker out of
    flight. *)
Lemma worker_step_reaching o st p :
  total_articles_written st < NUM_ARTICLES cfg ->
  NUM_ARTICLES cfg <= total_articles_written (fst (fst (worker_step cfg o st p))) ->
  in_flight (snd (fst (worker_step cfg o st p))) = false.
Proof.
  intros Hbelow. rewrite total_step.
  destruct p as [| |b|[|t r] w|t r w|t wd r w|w|r]; try lia. intros _. reflexivity.
Qed.

Lemma worker_step_steps_left o st p :
  NUM_ARTICLES cfg <= total_articles_written st ->
  (forall r, p <> Stopped r) ->
  (steps_left (snd (fst (worker_step cfg o st p))) < steps_left p <= 5)%nat
  /\ (p = CheckStop -> snd (fst (worker_step cfg o st p)) = Stopped TargetReached).
Proof.
  intros Hreached Hrun. apply Z.leb_le in Hreached.
  destruct p as [| |b|[|t r] w|t r w|t wd r w|w|r]; cbn [worker_step].
  - rewrite Hreached. cbn. split; [lia | reflexivity].
  - split; [|discriminate].
    destruct (sample_batch cfg (random_answer o)) as [ev [b|]]; cbn; lia.
  - split; [|discriminate].
    destruct (claim b (seen_titles st)) as [seen [|t new]]; [cbn; lia|].
    destruct (seen_append o); cbn; lia.
  - cbn. split; [lia | discriminate].
  - rewrite Hreached. cbn. split; [lia | discriminate].
  - split; [|discriminate]. destruct (page o); [|cbn; lia..].
    destruct (word_count _ <=? 50); [cbn; lia|]. destruct (corpus_append o); cbn; lia.
  - cbn. split; [lia | discriminate].
  - split; [|discriminate]. destruct (w =? 0); cbn; lia.
  - exfalso. apply (Hrun r). reflexivity.
Qed.

(** In every state of a run, if the target is reached then one worker at
    least is not in flight. *)
Lemma in_flight_bound_step who o s :
  (NUM_ARTICLES cfg <= total_articles_written (shared s) ->
   (in_flight_count (workers s) <= length (workers s) - 1)%nat) ->
  let s' := fst (sys_step cfg who o s) in
  length (workers s') = length (workers s)
  /\ (NUM_ARTICLES cfg <= total_articles_written (shared s') ->
      (in_flight_count (workers s') <= length (workers s') - 1)%nat).
Proof.
  intros Hinv. destruct who as [i|]; cbn [sys_step].
  - destruct (workers s !! i) as [p|] eqn:Hi; [|split; [reflexivity | exact Hinv]].
    pose proof (worker_step_after_target o (shared s) p) as Hafter.
    pose proof (worker_step_reaching o (shared s) p) as Hreach.
    pose proof (in_flight_count_insert (workers s) i p) as Hins.
    destruct (worker_step cfg o (shared s) p) as [[st' p'] ev].
    cbn [fst snd shared workers] in *. rewrite length_insert.
    split; [reflexivity|]. intros Hk. specialize (Hins p' Hi).
    destruct (Z_lt_le_dec (total_articles_written (shared s)) (NUM_ARTICLES cfg))
      as [Hbelow | Hreached].
    + specialize (Hreach Hbelow Hk).
      assert (Hlt : (in_flight_count (<[ i := p' ]> (workers s))
                     < length (<[ i := p' ]> (workers s)))%nat).
      { apply (in_flight_count_lt _ i p'); [|exact Hreach].
        apply list_lookup_insert_eq. apply lookup_lt_Some in Hi. exact Hi. }
      rewrite length_insert in Hlt. lia.
    + specialize (Hinv Hreached). specialize (Hafter Hreached). lia.
  - destruct (monitor_step cfg o (shared s) (monitor s)) as [m ev].
    split; [reflexivity | exact Hinv].
Qed.

Lemma in_flight_bound_run schedule s :
  (NUM_ARTICLES cfg <= total_articles_written (shared s) ->
   (in_flight_count (workers s) <= length (workers s) - 1)%nat) ->
  let s' := fst (run cfg schedule s) in
  length (workers s') = length (workers s)
  /\ (NUM_ARTICLES cfg <= total_articles_written (shared s') ->
      (in_flight_count (workers s') <= length (workers s') - 1)%nat).
Proof.
  revert s. induction schedule as [|[who o] schedule IH]; intros s Hinv.
  - split; [reflexivity | exact Hinv].
  - cbn [run]. destruct (in_flight_bound_step who o s Hinv) as [Hlen Hinv1].
    destruct (sys_step cfg who o s) as [s1 evs1]. cbn [fst] in *.
    destruct (IH s1 Hinv1) as [Hlen2 Hinv2].
    destruct (run cfg schedule s1) as [s2 evs2]. cbn [fst] in *.
    split; [congruence | exact Hinv2].
Qed.

(** After the target: the appends still to come are at most as many as
    the workers in flight. *)
Lemma late_writes_run schedule s :
  NUM_ARTICLES cfg <= total_articles_written (shared s) ->
  NUM_ARTICLES cfg <= total_articles_written (shared (fst (run cfg schedule s)))
  /\ (length (corpus_titles (snd (run cfg schedule s)))
      + in_flight_count (workers (fst (run cfg schedule s)))
      <= in_flight_count (workers s))%nat.
Proof.
  revert s. induction schedule as [|[who o] schedule IH]; intros s Hreached.
  - cbn. split; [exact Hreached | lia].
  - cbn [run].
    assert (Hstep : NUM_ARTICLES cfg
                    <= total_articles_written (shared (fst (sys_step cfg who o s)))
              /\ (length (corpus_titles (snd (sys_step cfg who o s)))
                  + in_flight_count (workers (fst (sys_step cfg who o s)))
                  <= in_flight_count (workers s))%nat).
    { destruct who as [i|]; cbn [sys_step].
      - destruct (workers s !! i) as [p|] eqn:Hi; [|cbn; split; [exact Hreached | lia]].
        pose proof (worker_step_after_target o (shared s) p Hreached) as Hafter.
        pose proof (total_step_mono o (shared s) p) as Hmono.
        pose proof (in_flight_count_insert (workers s) i p) as Hins.
        destruct (worker_step cfg o (shared s) p) as [[st' p'] ev].
        cbn [fst snd shared workers] in *. specialize (Hins p' Hi).
        split; lia.
      - pose proof (monitor_step_corpus cfg o (shared s) (monitor s)) as Hm.
        destruct (monitor_step cfg o (shared s) (monitor s)) as [m ev].
        cbn [fst snd shared workers] in *. rewrite Hm. cbn. split; [exact Hreached | lia]. }
    destruct (sys_step cfg who o s) as [s1 evs1]. cbn [fst snd] in Hstep.
    destruct Hstep as [Hreached1 Hcount1]. destruct (IH s1 Hreached1) as [Hreached2 Hcount2].
    destruct (run cfg schedule s1) as [s2 evs2]. cbn [fst snd] in *.
    split; [exact Hreached2|]. rewrite corpus_titles_app, length_app. lia.
Qed.

End Target.

(** C4 as stated fails with a target of one article and two workers: both
    workers pass the check of the target before either has written; the
    article of worker 0 brings the count to the target, and the article of
    worker 1 is appended to the corpus after that. *)
Lemma write_after_target_reached :
  let s1 := fst (run small_config race_to_target (start small_config None)) in
  let r2 := run small_config late_fetch s1 in
  NUM_ARTICLES small_config = 1
  /\ total_articles_written (shared s1) = 1
  /\ corpus_titles (snd r2) = [lit "B"]
  /\ total_articles_written (shared (fst r2)) = 1.
Proof. vm_compute. repeat split. Qed.

Lemma in_flight_count_replicate n : in_flight_count (replicate n CheckStop) = 0%nat.
Proof. induction n as [|n IH]; [reflexivity | exact IH]. Qed.

(** C4, amended. Take any run up to a state where the count of written
    articles has reached the target, and any continuation of it. In the
    continuation the corpus is appended to at most once per worker that had
    passed the check of the target before it was reached, so at most
    [NUM_WORKER_THREADS - 1] times in all; a worker that has not returned
    comes strictly closer to returning with every step it takes, returns
    within five steps of its own, and returns at its stop check with the
    reason that the target is reached; and the monitor stops at its next
    check. Nothing is said of the time this takes. *)
Theorem target_reached_stops_the_run (cfg : config) (file : option (list (list Z)))
    (before after : list (thread * oracle)) :
  let s1 := fst (run cfg before (start cfg file)) in
  let r2 := run cfg after s1 in
  NUM_ARTICLES cfg <= total_articles_written (shared s1) ->
  (length (corpus_titles (snd r2)) <= Z.to_nat (NUM_WORKER_THREADS cfg) - 1)%nat
  /\ (forall (i : nat) (p : pc) (o : oracle),
        workers (fst r2) !! i = Some p ->
        (forall r, p <> Stopped r) ->
        exists p',
          workers (fst (sys_step cfg (Worker i) o (fst r2))) !! i = Some p'
          /\ (steps_left p' < steps_left p <= 5)%nat
          /\ (p = CheckStop -> p' = Stopped TargetReached))
  /\ (forall (o : oracle) (last_size last_count : Z),
        monitor (fst r2) = MonitorCheck last_size last_count ->
        sys_step cfg Monitor o (fst r2)
        = ({| shared := shared (fst r2);
              workers := workers (fst r2);
              monitor := MonitorStopped TargetReached |},
           [Print MsgMonitorStopTarget])).
Proof.
  intros s1 r2 Hreached.
  destruct (late_writes_run cfg after s1 Hreached) as [Hreached2 Hlate].
  fold r2 in Hreached2, Hlate. split; [|split].
  - assert (Hstart : NUM_ARTICLES cfg <= total_articles_written (shared (start cfg file)) ->
              (in_flight_count (workers (start cfg file))
               <= length (workers (start cfg file)) - 1)%nat).
    { intros _. cbn [start workers]. rewrite in_flight_count_replicate. lia. }
    destruct (in_flight_bound_run cfg before (start cfg file) Hstart) as [Hlen Hbound].
    fold s1 in Hlen, Hbound. specialize (Hbound Hreached).
    rewrite Hlen in Hbound. cbn [start workers] in Hbound.
    rewrite length_replicate in Hbound. lia.
  - intros i p o Hi Hrun. cbn [sys_step]. rewrite Hi.
    pose proof (worker_step_steps_left cfg o (shared (fst r2)) p Hreached2 Hrun) as Hleft.
    destruct (worker_step cfg o (shared (fst r2)) p) as [[st' p'] ev].
    cbn [fst snd workers] in *. exists p'. split; [|exact Hleft].
    apply list_lookup_insert_eq. apply lookup_lt_Some in Hi. exact Hi.
  - intros o last_size last_count Hmon. unfold sys_step. rewrite Hmon.
    cbn [monitor_step]. apply Z.leb_le in Hreached2. rewrite Hreached2. reflexivity.
Qed.

Lemma target_reached_stops_the_run_witness :
  NUM_ARTICLES small_config
  <= total_articles_written
       (shared (fst (run small_config race_to_target (start small_config None))))
  /\ (length (corpus_titles
                (snd (run small_config late_fetch
                        (fst (run small_config race_to_target (start small_config None))))))
      <= Z.to_nat (NUM_WORKER_THREADS small_config) - 1)%nat.
Proof.
  assert (Hreached : NUM_ARTICLES small_config
            <= total_articles_written
                 (shared (fst (run small_config race_to_target (start small_config None)))))
    by (vm_compute; discriminate).
  split; [exact Hreached|].
  exact (proj1 (target_reached_stops_the_run small_config None race_to_target late_fetch
                  Hreached)).
Defined.


(** * Further properties of the script *)

(** ** Runs *)

Section Runs.

Variable cfg : config.

(** A property of the state and of the events so far that every step keeps
    holds all along a run. *)
Lemma run_invariant (P : system -> list event -> Prop) :
  (forall s evs who o,
     P s evs -> P (fst (sys_step cfg who o s)) (evs ++ snd (sys_step cfg who o s))) ->
  forall schedule s evs,
    P s evs -> P (fst (run cfg schedule s)) (evs ++ snd (run cfg schedule s)).
Proof.
  intros Hstep schedule. induction schedule as [|[who o] schedule IH]; intros s evs HP.
  - cbn. rewrite app_nil_r. exact HP.
  - cbn [run]. specialize (Hstep s evs who o HP).
    destruct (sys_step cfg who o s) as [s1 evs1]. cbn [fst snd] in Hstep.
    specialize (IH s1 (evs ++ evs1) Hstep).
    destruct (run cfg schedule s1) as [s2 evs2]. cbn [fst snd] in *.
    rewrite app_assoc. exact IH.
Qed.

Lemma how_many_cons f q ws :
  how_many f (q :: ws) = (Nat.b2n (f q) + how_many f ws)%nat.
Proof. unfold how_many. cbn. destruct (f q); reflexivity. Qed.

Lemma how_many_le f ws : (how_many f ws <= length ws)%nat.
Proof.
  induction ws as [|q ws IH]; [reflexivity|]. rewrite how_many_cons.
  cbn [length]. destruct (f q); cbn; lia.
Qed.

Lemma how_many_insert f (ws : list pc) (i : nat) (p p' : pc) :
  ws !! i = Some p ->
  (how_many f (<[ i := p' ]> ws) + Nat.b2n (f p) = how_many f ws + Nat.b2n (f p'))%nat.
Proof.
  revert i. induction ws as [|q ws IH]; intros i; [discriminate|].
  destruct i as [|i].
  - intros [= ->]. change (<[ 0%nat := p' ]> (p :: ws)) with (p' :: ws).
    rewrite !how_many_cons. lia.
  - intros Hi. specialize (IH i Hi).
    change (<[ S i := p' ]> (q :: ws)) with (q :: <[ i := p' ]> ws).
    rewrite !how_many_cons. lia.
Qed.

Lemma how_many_replicate f n : f CheckStop = false -> how_many f (replicate n CheckStop) = 0%nat.
Proof.
  intros Hf. induction n as [|n IH]; [reflexivity|].
  change (replicate (S n) CheckStop) with (CheckStop :: replicate n CheckStop).
  rewrite how_many_cons, Hf, IH. reflexivity.
Qed.

(** What one step of a worker does to the two counters and to the corpus. *)
Lemma worker_step_counters o st p :
  let r := worker_step cfg o st p in
  total_articles_written (fst (fst r)) + Z.of_nat (Nat.b2n (counting (snd (fst r))))
  = total_articles_written st + Z.of_nat (Nat.b2n (counting p))
    + Z.of_nat (length (corpus_titles (snd r)))
  /\ (0 <= consecutive_empty_batches st -> 0 <= consecutive_empty_batches (fst (fst r))).
Proof.
  destruct p as [| |b|[|t r] w|t r w|t wd r w|w|r]; cbn [worker_step]; cbv zeta.
  - repeat (destruct (_ <=? _)); cbn; split; lia.
  - pose proof (retry_loop_corpus cfg (random_answer o) (Z.to_nat (MAX_RETRIES cfg)) 1) as Hr.
    fold (sample_batch cfg (random_answer o)) in Hr.
    destruct (sample_batch cfg (random_answer o)) as [ev [b|]]; cbn in *; rewrite Hr;
      cbn; split; lia.
  - destruct (claim b (seen_titles st)) as [seen [|t new]]; [cbn; split; lia|].
    destruct (seen_append o); cbn; split; lia.
  - cbn. split; lia.
  - destruct (_ <=? _); cbn; split; lia.
  - destruct (page o); [|cbn; split; lia..].
    destruct (word_count _ <=? 50); [cbn; split; lia|].
    destruct (corpus_append o); cbn; split; lia.
  - cbn. split; lia.
  - destruct (w =? 0); cbn; split; lia.
  - cbn. split; lia.
Qed.

End Runs.

(** X1. Along any run, from any state, the count of written articles never
    goes down; and from the start of the script neither counter is ever
    negative. *)
Theorem counters_never_go_back (cfg : config) (file : option (list (list Z)))
    (schedule more : list (thread * oracle)) :
  let s := fst (run cfg schedule (start cfg file)) in
  let s' := fst (run cfg more s) in
  0 <= total_articles_written (shared s)
  /\ total_articles_written (shared s) <= total_articles_written (shared s')
  /\ 0 <= consecutive_empty_batches (shared s).
Proof.
  intros s s'.
  assert (Hmono : forall sched s0,
            total_articles_written (shared s0)
            <= total_articles_written (shared (fst (run cfg sched s0)))).
  { intros sched s0.
    refine (run_invariant cfg
              (fun s1 _ => total_articles_written (shared s0)
                           <= total_articles_written (shared s1))
              _ sched s0 [] _); [|lia].
    intros s1 evs who o H1. destruct who as [i|]; cbn [sys_step].
    - destruct (workers s1 !! i) as [p|]; [|exact H1].
      pose proof (total_step_mono cfg o (shared s1) p) as Hm.
      destruct (worker_step cfg o (shared s1) p) as [[st' p'] ev]. cbn in *. lia.
    - destruct (monitor_step cfg o (shared s1) (monitor s1)) as [m ev]. exact H1. }
  split; [|split].
  - specialize (Hmono schedule (start cfg file)). fold s in Hmono.
    assert (0 <= total_articles_written (shared (start cfg file)))
      by (destruct file; cbn; lia).
    lia.
  - apply Hmono.
  - refine (run_invariant cfg (fun s1 _ => 0 <= consecutive_empty_batches (shared s1))
              _ schedule (start cfg file) [] _); [|destruct file; cbn; lia].
    intros s1 evs who o H1. destruct who as [i|]; cbn [sys_step].
    + destruct (workers s1 !! i) as [p|]; [|exact H1].
      pose proof (proj2 (worker_step_counters cfg o (shared s1) p) H1) as Hm.
      destruct (worker_step cfg o (shared s1) p) as [[st' p'] ev]. exact Hm.
    + destruct (monitor_step cfg o (shared s1) (monitor s1)) as [m ev]. exact H1.
Qed.

Section Accounting.

Variable cfg : config.

Lemma how_many_joined f ws :
  (forall r, f (Stopped r) = false) -> all_joined ws = true -> how_many f ws = 0%nat.
Proof.
  intros Hf. induction ws as [|q ws IH]; [reflexivity|].
  cbn [all_joined forallb]. intros [Hq Hws]%andb_true_iff.
  rewrite how_many_cons, (IH Hws). destruct q; try discriminate. rewrite Hf. reflexivity.
Qed.

Lemma count_invariant_step (total0 : Z) s evs who o :
  total_articles_written (shared s) + Z.of_nat (how_many counting (workers s))
  = total0 + Z.of_nat (length (corpus_titles evs)) ->
  total_articles_written (shared (fst (sys_step cfg who o s)))
  + Z.of_nat (how_many counting (workers (fst (sys_step cfg who o s))))
  = total0 + Z.of_nat (length (corpus_titles (evs ++ snd (sys_step cfg who o s)))).
Proof.
  intros Hinv. destruct who as [i|]; cbn [sys_step].
  - destruct (workers s !! i) as [p|] eqn:Hi; [|cbn; rewrite app_nil_r; exact Hinv].
    pose proof (proj1 (worker_step_counters cfg o (shared s) p)) as Hstep.
    pose proof (how_many_insert counting (workers s) i p) as Hins.
    destruct (worker_step cfg o (shared s) p) as [[st' p'] ev].
    cbn [fst snd shared workers] in *. specialize (Hins p' Hi).
    rewrite corpus_titles_app, length_app. lia.
  - pose proof (monitor_step_corpus cfg o (shared s) (monitor s)) as Hm.
    destruct (monitor_step cfg o (shared s) (monitor s)) as [m ev].
    cbn [fst snd shared workers] in *. rewrite corpus_titles_app, Hm, app_nil_r. exact Hinv.
Qed.

(** A step adds to the count and the busy workers together only by letting
    a worker in below the target. *)
Lemma worker_step_busy o st p :
  let r := worker_step cfg o st p in
  total_articles_written (fst (fst r)) + Z.of_nat (Nat.b2n (busy (snd (fst r))))
  <= total_articles_written st + Z.of_nat (Nat.b2n (busy p))
  \/ total_articles_written (fst (fst r)) < NUM_ARTICLES cfg.
Proof.
  destruct p as [| |b|[|t r] w|t r w|t wd r w|w|r]; cbn [worker_step]; cbv zeta.
  - repeat (destruct (_ <=? _)); cbn; left; lia.
  - destruct (sample_batch cfg (random_answer o)) as [ev [b|]]; cbn; left; lia.
  - destruct (claim b (seen_titles st)) as [seen [|t new]]; [cbn; left; lia|].
    destruct (seen_append o); cbn; left; lia.
  - cbn. left. lia.
  - destruct (NUM_ARTICLES cfg <=? total_articles_written st) eqn:Hc; cbn; [left; lia|].
    right. apply Z.leb_gt, Hc.
  - destruct (page o); [|cbn; left; lia..].
    destruct (word_count _ <=? 50); [cbn; left; lia|].
    destruct (corpus_append o); cbn; left; lia.
  - cbn. left. lia.
  - destruct (w =? 0); cbn; left; lia.
  - cbn. left. lia.
Qed.

End Accounting.

(** X2. Every article counted is an article appended to the corpus: at any
    point of a run the count of written articles, plus the workers that have
    appended an article and not yet counted it, is the count after the load
    plus the number of appends; so when every worker has returned the count
    has grown by exactly the number of articles appended. *)
Theorem every_count_is_a_write (cfg : config) (file : option (list (list Z)))
    (schedule : list (thread * oracle)) :
  let r := run cfg schedule (start cfg file) in
  total_articles_written (shared (fst r))
  + Z.of_nat (how_many counting (workers (fst r)))
  = total_articles_written (load file) + Z.of_nat (length (corpus_titles (snd r)))
  /\ (all_joined (workers (fst r)) = true ->
      total_articles_written (shared (fst r))
      = total_articles_written (load file) + Z.of_nat (length (corpus_titles (snd r)))).
Proof.
  intros r.
  assert (Hinv : total_articles_written (shared (fst r))
                 + Z.of_nat (how_many counting (workers (fst r)))
                 = total_articles_written (load file)
                   + Z.of_nat (length (corpus_titles ([] ++ snd r)))).
  { refine (run_invariant cfg
              (fun s evs =>
                 total_articles_written (shared s) + Z.of_nat (how_many counting (workers s))
                 = total_articles_written (load file) + Z.of_nat (length (corpus_titles evs)))
              _ schedule (start cfg file) [] _).
    - intros s evs who o. apply count_invariant_step.
    - cbn [start shared workers corpus_titles length].
      rewrite how_many_replicate by reflexivity. lia. }
  cbn [app] in Hinv. split; [exact Hinv|]. intros Hjoined.
  rewrite (how_many_joined counting) in Hinv by (reflexivity || exact Hjoined). lia.
Qed.

(** X3. The count of written articles never passes the target by more than
    the number of workers less one, unless the load had already set it
    higher. *)
Theorem count_overshoot_bound (cfg : config) (file : option (list (list Z)))
    (schedule : list (thread * oracle)) :
  let s := fst (run cfg schedule (start cfg file)) in
  total_articles_written (shared s)
  <= Z.max (total_articles_written (load file))
           (NUM_ARTICLES cfg + Z.of_nat (Z.to_nat (NUM_WORKER_THREADS cfg)) - 1).
Proof.
  intros s. set (n := Z.to_nat (NUM_WORKER_THREADS cfg)).
  set (bound := Z.max (total_articles_written (load file))
                      (NUM_ARTICLES cfg + Z.of_nat n - 1)).
  assert (Hinv : length (workers s) = n
                 /\ total_articles_written (shared s) + Z.of_nat (how_many busy (workers s))
                    <= bound).
  { refine (run_invariant cfg
              (fun s1 _ =>
                 length (workers s1) = n
                 /\ total_articles_written (shared s1)
                    + Z.of_nat (how_many busy (workers s1)) <= bound)
              _ schedule (start cfg file) [] _).
    - intros s1 evs who o [Hlen Hb]. destruct who as [i|]; cbn [sys_step].
      + destruct (workers s1 !! i) as [p|] eqn:Hi; [|split; assumption].
        pose proof (worker_step_busy cfg o (shared s1) p) as Hstep.
        pose proof (how_many_insert busy (workers s1) i p) as Hins.
        destruct (worker_step cfg o (shared s1) p) as [[st' p'] ev].
        cbn [fst snd shared workers] in *. specialize (Hins p' Hi).
        rewrite length_insert. split; [exact Hlen|].
        pose proof (how_many_le busy (<[ i := p' ]> (workers s1))) as Hle.
        rewrite length_insert, Hlen in Hle. unfold bound in *. lia.
      + destruct (monitor_step cfg o (shared s1) (monitor s1)) as [m ev].
        split; assumption.
    - cbn [start shared workers]. rewrite length_replicate.
      rewrite how_many_replicate by reflexivity. unfold bound. split; [reflexivity | lia]. }
  destruct Hinv as [_ Hinv]. lia.
Qed.

(** ** The end of a run and the monitor *)

Section Joined.

Variable cfg : config.

Lemma all_joined_insert (ws : list pc) (i : nat) (p p' : pc) :
  ws !! i = Some p ->
  all_joined (<[ i := p' ]> ws) = true ->
  stopped p' = true /\ (stopped p = true -> all_joined ws = true).
Proof.
  revert i. induction ws as [|q ws IH]; intros i; [discriminate|].
  destruct i as [|i].
  - intros [= ->]. change (<[ 0%nat := p' ]> (p :: ws)) with (p' :: ws).
    cbn [all_joined forallb]. intros [H1 H2]%andb_true_iff.
    split; [exact H1|]. intros ->. exact H2.
  - intros Hi. change (<[ S i := p' ]> (q :: ws)) with (q :: <[ i := p' ]> ws).
    cbn [all_joined forallb]. intros [H1 H2]%andb_true_iff.
    destruct (IH i Hi H2) as [Hp' Hp]. split; [exact Hp'|].
    intros Hs. rewrite H1. exact (Hp Hs).
Qed.

Lemma all_joined_lookup (ws : list pc) (i : nat) (p : pc) :
  all_joined ws = true -> ws !! i = Some p -> stopped p = true.
Proof.
  revert i. induction ws as [|q ws IH]; intros i; [discriminate|].
  cbn [all_joined forallb]. intros [H1 H2]%andb_true_iff.
  destruct i as [|i]; [intros [= ->]; exact H1 | apply IH, H2].
Qed.

(** A worker that has returned does nothing. *)
Lemma worker_step_stopped o st p :
  stopped p = true -> worker_step cfg o st p = (st, p, []).
Proof. destruct p; try discriminate. reflexivity. Qed.

(** A worker returns only from its stop check, in a state that meets one
    of the two stop conditions, which it leaves as it is. *)
Lemma worker_step_returns o st p :
  stopped p = false ->
  stopped (snd (fst (worker_step cfg o st p))) = true ->
  fst (fst (worker_step cfg o st p)) = st
  /\ (NUM_ARTICLES cfg <= total_articles_written st
      \/ CONSECUTIVE_EMPTY_THRESHOLD cfg <= consecutive_empty_batches st).
Proof.
  intros Hrun. destruct p as [| |b|[|t r] w|t r w|t wd r w|w|r];
    [..|discriminate Hrun]; clear Hrun; cbn [worker_step].
  - destruct (NUM_ARTICLES cfg <=? total_articles_written st) eqn:H1.
    + intros _. split; [reflexivity|]. left. apply Z.leb_le, H1.
    + destruct (CONSECUTIVE_EMPTY_THRESHOLD cfg <=? consecutive_empty_batches st) eqn:H2;
        [|discriminate].
      intros _. split; [reflexivity|]. right. apply Z.leb_le, H2.
  - destruct (sample_batch cfg (random_answer o)) as [ev [b|]]; discriminate.
  - destruct (claim b (seen_titles st)) as [seen [|t new]]; [discriminate|].
    destruct (seen_append o); discriminate.
  - discriminate.
  - destruct (_ <=? _); discriminate.
  - destruct (page o); [|discriminate..].
    destruct (word_count _ <=? 50); [discriminate|].
    destruct (corpus_append o); discriminate.
  - discriminate.
  - destruct (w =? 0); discriminate.
Qed.

Lemma sys_step_joined who o s :
  all_joined (workers s) = true ->
  shared (fst (sys_step cfg who o s)) = shared s
  /\ workers (fst (sys_step cfg who o s)) = workers s
  /\ corpus_titles (snd (sys_step cfg who o s)) = []
  /\ page_calls (snd (sys_step cfg who o s)) = []
  /\ random_calls (snd (sys_step cfg who o s)) = [].
Proof.
  intros Hj. destruct who as [i|]; cbn [sys_step].
  - destruct (workers s !! i) as [p|] eqn:Hi; [|repeat split].
    rewrite (worker_step_stopped o (shared s) p (all_joined_lookup _ _ _ Hj Hi)).
    cbn [fst snd shared workers]. rewrite list_insert_id by exact Hi. repeat split.
  - destruct (monitor s) as [ls lc | r]; cbn [monitor_step]; [|repeat split].
    repeat (destruct (_ <=? _); [repeat split|]).
    destruct (getsize o); repeat split.
Qed.

End Joined.

(** X4. The last line of the final report is right. When the main thread
    has joined every worker (and there is at least one), the report says
    that the target is reached exactly when the count has reached it, and
    when it says that no new articles were found the counter of consecutive
    empty batches stands at or above its threshold. *)
Theorem final_status_is_right (cfg : config) (file : option (list (list Z)))
    (schedule : list (thread * oracle)) :
  let s := fst (run cfg schedule (start cfg file)) in
  workers s <> [] ->
  all_joined (workers s) = true ->
  match final_status cfg (shared s) with
  | TargetReached => NUM_ARTICLES cfg <= total_articles_written (shared s)
  | NoNewArticles =>
      total_articles_written (shared s) < NUM_ARTICLES cfg
      /\ CONSECUTIVE_EMPTY_THRESHOLD cfg <= consecutive_empty_batches (shared s)
  end.
Proof.
  intros s Hsome Hjoined.
  assert (Hinv : workers s <> [] -> all_joined (workers s) = true ->
                 NUM_ARTICLES cfg <= total_articles_written (shared s)
                 \/ CONSECUTIVE_EMPTY_THRESHOLD cfg <= consecutive_empty_batches (shared s)).
  { refine (run_invariant cfg
              (fun s1 _ =>
                 workers s1 <> [] -> all_joined (workers s1) = true ->
                 NUM_ARTICLES cfg <= total_articles_written (shared s1)
                 \/ CONSECUTIVE_EMPTY_THRESHOLD cfg <= consecutive_empty_batches (shared s1))
              _ schedule (start cfg file) [] _).
    - intros s1 evs who o Hinv. destruct who as [i|]; cbn [sys_step].
      + destruct (workers s1 !! i) as [p|] eqn:Hi; [|exact Hinv].
        pose proof (worker_step_stopped cfg o (shared s1) p) as Hstay.
        pose proof (worker_step_returns cfg o (shared s1) p) as Hret.
        destruct (worker_step cfg o (shared s1) p) as [[st' p'] ev].
        cbn [fst snd shared workers] in *. intros _ Hj.
        destruct (all_joined_insert _ _ _ _ Hi Hj) as [Hp' Hp].
        destruct (stopped p) eqn:Hsp.
        * injection (Hstay eq_refl) as -> _ _. apply Hinv; [|exact (Hp eq_refl)].
          intros Hnil. rewrite Hnil in Hi. discriminate.
        * destruct (Hret eq_refl Hp') as [-> Hcond]. exact Hcond.
      + destruct (monitor_step cfg o (shared s1) (monitor s1)) as [m ev]. exact Hinv.
    - cbn [start workers]. destruct (Z.to_nat (NUM_WORKER_THREADS cfg)).
      + intros H. exfalso. apply H. reflexivity.
      + intros _. discriminate. }
  specialize (Hinv Hsome Hjoined). unfold final_status.
  destruct (NUM_ARTICLES cfg <=? total_articles_written (shared s)) eqn:Ht.
  - apply Z.leb_le, Ht.
  - apply Z.leb_gt in Ht. split; [exact Ht | lia].
Qed.

Lemma final_status_is_right_witness :
  let schedule :=
    race_to_target ++ late_fetch
    ++ [(Worker 1, quiet); (Worker 1, quiet); (Worker 1, quiet); (Worker 1, quiet);
        (Worker 0, quiet); (Worker 0, quiet); (Worker 0, quiet)] in
  let s := fst (run small_config schedule (start small_config None)) in
  workers s <> []
  /\ all_joined (workers s) = true
  /\ match final_status small_config (shared s) with
     | TargetReached => NUM_ARTICLES small_config <= total_articles_written (shared s)
     | NoNewArticles =>
         total_articles_written (shared s) < NUM_ARTICLES small_config
         /\ CONSECUTIVE_EMPTY_THRESHOLD small_config <= consecutive_empty_batches (shared s)
     end.
Proof.
  cbv zeta.
  assert (H1 : workers (fst (run small_config
                 (race_to_target ++ late_fetch
                  ++ [(Worker 1, quiet); (Worker 1, quiet); (Worker 1, quiet); (Worker 1, quiet);
                      (Worker 0, quiet); (Worker 0, quiet); (Worker 0, quiet)])
                 (start small_config None))) <> []) by (vm_compute; discriminate).
  assert (H2 : all_joined (workers (fst (run small_config
                 (race_to_target ++ late_fetch
                  ++ [(Worker 1, quiet); (Worker 1, quiet); (Worker 1, quiet); (Worker 1, quiet);
                      (Worker 0, quiet); (Worker 0, quiet); (Worker 0, quiet)])
                 (start small_config None)))) = true) by (vm_compute; reflexivity).
  split; [exact H1|]. split; [exact H2|].
  exact (final_status_is_right small_config None _ H1 H2).
Defined.

(** X5. Once every worker has returned, nothing moves any more: whatever
    is scheduled, the shared state and the workers stay as they are, no batch
    is sampled, no page is fetched and nothing is appended to the corpus. *)
Theorem nothing_moves_after_the_join (cfg : config) (s : system)
    (schedule : list (thread * oracle)) :
  all_joined (workers s) = true ->
  let r := run cfg schedule s in
  shared (fst r) = shared s
  /\ workers (fst r) = workers s
  /\ corpus_titles (snd r) = []
  /\ page_calls (snd r) = []
  /\ random_calls (snd r) = [].
Proof.
  revert s. induction schedule as [|[who o] schedule IH]; intros s Hj.
  - cbn. repeat split.
  - cbn [run]. destruct (sys_step_joined cfg who o s Hj) as (H1 & H2 & H3 & H4 & H5).
    destruct (sys_step cfg who o s) as [s1 evs1]. cbn [fst snd] in *.
    assert (Hj1 : all_joined (workers s1) = true) by (rewrite H2; exact Hj).
    specialize (IH s1 Hj1). cbv zeta in IH.
    destruct (run cfg schedule s1) as [s2 evs2]. cbn [fst snd] in *.
    destruct IH as (I1 & I2 & I3 & I4 & I5).
    split; [congruence|]. split; [congruence|].
    assert (Happ : forall (f : list event -> list (list Z)),
              (forall a b, f (a ++ b) = f a ++ f b) ->
              f evs1 = [] -> f evs2 = [] -> f (evs1 ++ evs2) = []).
    { intros f Hf Ha Hb. rewrite Hf, Ha, Hb. reflexivity. }
    split; [apply (Happ corpus_titles corpus_titles_app H3 I3)|].
    split.
    + apply (Happ page_calls); [|exact H4 | exact I4].
      intros a b. induction a as [|e a IHa]; [reflexivity|].
      destruct e; cbn [page_calls app]; rewrite IHa; reflexivity.
    + clear -H5 I5. induction evs1 as [|e evs1 IHe]; [exact I5|].
      destruct e; cbn [random_calls app] in *; try discriminate; apply IHe, H5.
Qed.

Lemma nothing_moves_after_the_join_witness :
  let s := {| shared := fresh_state 0;
              workers := [Stopped NoNewArticles; Stopped TargetReached];
              monitor := MonitorCheck 0 0 |} in
  all_joined (workers s) = true
  /\ shared (fst (run script_config race_to_target s)) = shared s
  /\ workers (fst (run script_config race_to_target s)) = workers s.
Proof.
  cbv zeta. split; [reflexivity|].
  pose proof (nothing_moves_after_the_join script_config
                {| shared := fresh_state 0;
                   workers := [Stopped NoNewArticles; Stopped TargetReached];
                   monitor := MonitorCheck 0 0 |} race_to_target eq_refl) as H.
  cbv zeta in H. split; [apply H | apply H].
Defined.

Section MonitorFacts.

Variable cfg : config.

Lemma run_without_monitor schedule s s' :
  shared s = shared s' -> workers s = workers s' ->
  shared (fst (run cfg schedule s)) = shared (fst (run cfg (without_monitor schedule) s'))
  /\ workers (fst (run cfg schedule s))
     = workers (fst (run cfg (without_monitor schedule) s'))
  /\ corpus_titles (snd (run cfg schedule s))
     = corpus_titles (snd (run cfg (without_monitor schedule) s'))
  /\ page_calls (snd (run cfg schedule s))
     = page_calls (snd (run cfg (without_monitor schedule) s')).
Proof.
  assert (Hpc : forall a b, page_calls (a ++ b) = page_calls a ++ page_calls b).
  { intros a b. induction a as [|e a IHa]; [reflexivity|].
    destruct e; cbn [page_calls app]; rewrite IHa; reflexivity. }
  revert s s'. induction schedule as [|[who o] schedule IH]; intros s s' Hsh Hws.
  - cbn. repeat split; assumption.
  - destruct who as [i|].
    + change (without_monitor ((Worker i, o) :: schedule))
        with ((Worker i, o) :: without_monitor schedule).
      cbn [run sys_step]. rewrite <- Hsh, <- Hws.
      destruct (workers s !! i) as [p|].
      * destruct (worker_step cfg o (shared s) p) as [[st' p'] ev].
        specialize (IH {| shared := st'; workers := <[ i := p' ]> (workers s);
                          monitor := monitor s |}
                       {| shared := st'; workers := <[ i := p' ]> (workers s);
                          monitor := monitor s' |} eq_refl eq_refl).
        destruct (run cfg schedule _) as [s2 evs2].
        destruct (run cfg (without_monitor schedule) _) as [s2' evs2'].
        cbn [fst snd] in *. destruct IH as (I1 & I2 & I3 & I4).
        rewrite !corpus_titles_app, !Hpc, I3, I4. repeat split; assumption.
      * specialize (IH s s' Hsh Hws).
        destruct (run cfg schedule s) as [s2 evs2].
        destruct (run cfg (without_monitor schedule) s') as [s2' evs2'].
        exact IH.
    + change (without_monitor ((Monitor, o) :: schedule)) with (without_monitor schedule).
      cbn [run sys_step].
      pose proof (monitor_step_corpus cfg o (shared s) (monitor s)) as Hc.
      assert (Hp : page_calls (snd (monitor_step cfg o (shared s) (monitor s))) = []).
      { destruct (monitor s); cbn; [|reflexivity].
        repeat (destruct (_ <=? _); [reflexivity|]). destruct (getsize o); reflexivity. }
      destruct (monitor_step cfg o (shared s) (monitor s)) as [m ev]. cbn [snd] in Hc, Hp.
      specialize (IH {| shared := shared s; workers := workers s; monitor := m |} s' Hsh Hws).
      destruct (run cfg schedule _) as [s2 evs2].
      destruct (run cfg (without_monitor schedule) s') as [s2' evs2'].
      cbn [fst snd] in *. rewrite corpus_titles_app, Hpc, Hc, Hp. exact IH.
Qed.

Lemma report_growths_app a b :
  report_growths (a ++ b) = report_growths a ++ report_growths b.
Proof.
  induction a as [|e a IH]; [reflexivity|].
  destruct e as [| | | |m]; cbn [report_growths app]; try (rewrite IH; reflexivity).
  destruct m; cbn [report_growths app]; rewrite IH; reflexivity.
Qed.

Lemma retry_loop_reports random n a :
  report_growths (fst (retry_loop cfg random n a)) = [].
Proof.
  revert a. induction n as [|n IH]; intros a; cbn [retry_loop]; [reflexivity|].
  destruct (random a) as [b | msg]; [reflexivity|].
  destruct (is_transient msg); [|reflexivity].
  specialize (IH (a + 1)). destruct (retry_loop cfg random n (a + 1)) as [ev r].
  exact IH.
Qed.

Lemma worker_step_reports o st p :
  report_growths (snd (worker_step cfg o st p)) = [].
Proof.
  destruct p as [| |b|[|t r] w|t r w|t wd r w|w|r]; cbn [worker_step].
  - repeat (destruct (_ <=? _)); reflexivity.
  - pose proof (retry_loop_reports (random_answer o) (Z.to_nat (MAX_RETRIES cfg)) 1) as Hr.
    fold (sample_batch cfg (random_answer o)) in Hr.
    destruct (sample_batch cfg (random_answer o)) as [ev [b|]]; exact Hr.
  - destruct (claim b (seen_titles st)) as [seen [|t new]]; [reflexivity|].
    destruct (seen_append o); reflexivity.
  - reflexivity.
  - destruct (_ <=? _); reflexivity.
  - destruct (page o); [|reflexivity..].
    destruct (word_count _ <=? 50); [reflexivity|]. destruct (corpus_append o); reflexivity.
  - reflexivity.
  - destruct (w =? 0); reflexivity.
  - reflexivity.
Qed.

End MonitorFacts.

(** X6. The monitor only watches: a run with the steps of the monitor left
    out of its schedule ends with the same shared state and the same workers,
    and fetches and appends the same titles in the same order. *)
Theorem monitor_only_watches (cfg : config) (s : system)
    (schedule : list (thread * oracle)) :
  let r := run cfg schedule s in
  let r' := run cfg (without_monitor schedule) s in
  shared (fst r) = shared (fst r')
  /\ workers (fst r) = workers (fst r')
  /\ corpus_titles (snd r) = corpus_titles (snd r')
  /\ page_calls (snd r) = page_calls (snd r').
Proof. apply run_without_monitor; reflexivity. Qed.

(** X7. The monitor and the workers agree on when to stop: in any state,
    the monitor at its check stops for a reason exactly when a worker at its
    stop check returns for that reason. *)
Theorem monitor_stops_with_the_workers (cfg : config) (o o' : oracle) (st : state)
    (last_size last_count : Z) (r : stop_reason) :
  fst (monitor_step cfg o st (MonitorCheck last_size last_count)) = MonitorStopped r
  <-> snd (fst (worker_step cfg o' st CheckStop)) = Stopped r.
Proof.
  cbn [monitor_step worker_step].
  destruct (NUM_ARTICLES cfg <=? total_articles_written st).
  - cbn. split; intros [= <-]; reflexivity.
  - destruct (CONSECUTIVE_EMPTY_THRESHOLD cfg <=? consecutive_empty_batches st).
    + cbn. split; intros [= <-]; reflexivity.
    + destruct (getsize o); cbn; split; discriminate.
Qed.

(** X8. The monitor never reports a negative growth in articles: from the
    start of the script, in every run, the growth of each report is zero or
    more. *)
Theorem reported_growth_is_not_negative (cfg : config) (file : option (list (list Z)))
    (schedule : list (thread * oracle)) :
  Forall (fun growth => 0 <= growth)
    (report_growths (snd (run cfg schedule (start cfg file)))).
Proof.
  assert (Hinv :
    Forall (fun growth => 0 <= growth)
      (report_growths ([] ++ snd (run cfg schedule (start cfg file))))
    /\ forall ls lc,
         monitor (fst (run cfg schedule (start cfg file))) = MonitorCheck ls lc ->
         lc <= total_articles_written (shared (fst (run cfg schedule (start cfg file))))).
  { refine (run_invariant cfg
              (fun s evs =>
                 Forall (fun growth => 0 <= growth) (report_growths evs)
                 /\ forall ls lc, monitor s = MonitorCheck ls lc ->
                                  lc <= total_articles_written (shared s))
              _ schedule (start cfg file) [] _).
    - intros s evs who o [Hall Hlast]. rewrite report_growths_app.
      destruct who as [i|]; cbn [sys_step].
      + destruct (workers s !! i) as [p|];
          [|cbn; rewrite app_nil_r; split; assumption].
        pose proof (worker_step_reports cfg o (shared s) p) as Hr.
        pose proof (total_step_mono cfg o (shared s) p) as Hm.
        destruct (worker_step cfg o (shared s) p) as [[st' p'] ev].
        cbn [fst snd shared monitor] in *. rewrite Hr, app_nil_r.
        split; [exact Hall|]. intros ls lc Hmon. specialize (Hlast ls lc Hmon). lia.
      + destruct (monitor s) as [ls lc | r] eqn:Hmon; cbn [monitor_step].
        * specialize (Hlast ls lc eq_refl).
          destruct (NUM_ARTICLES cfg <=? total_articles_written (shared s));
            [cbn; rewrite app_nil_r; split; [exact Hall | discriminate]|].
          destruct (CONSECUTIVE_EMPTY_THRESHOLD cfg <=? consecutive_empty_batches (shared s));
            [cbn; rewrite app_nil_r; split; [exact Hall | discriminate]|].
          destruct (getsize o) as [size | msg]; cbn.
          -- split.
             ++ apply Forall_app. split; [exact Hall|]. constructor; [lia | constructor].
             ++ intros ls' lc' [= _ <-]. lia.
          -- rewrite app_nil_r. split; [exact Hall|]. intros ls' lc' [= _ <-]. exact Hlast.
        * cbn. rewrite app_nil_r. split; [exact Hall | discriminate].
    - split; [constructor|]. cbn [start monitor shared]. intros ls lc [= _ <-].
      destruct file; cbn; lia. }
  apply Hinv.
Qed.

(** ** Dedup and retry on their own *)

Lemma claim_sublist (titles_batch : list (list Z)) (seen : gset (list Z)) :
  snd (claim titles_batch seen) `sublist_of` titles_batch.
Proof.
  revert seen. induction titles_batch as [|title rest IH]; intros seen; cbn [claim].
  - constructor.
  - destruct (decide (title ∈ seen)).
    + apply sublist_cons, IH.
    + specialize (IH ({[title]} ∪ seen)).
      destruct (claim rest ({[title]} ∪ seen)) as [s1 n1]. cbn [snd] in *.
      apply sublist_skip, IH.
Qed.

(** X9. The dedup loop claims exactly the titles of the batch that were not
    in the set, each once and in the order of the batch; it leaves in the set
    what was there and the whole batch; and a second pass over the same
    batch claims nothing. *)
Theorem claim_takes_the_unseen_once (titles_batch : list (list Z)) (seen : gset (list Z)) :
  let seen' := fst (claim titles_batch seen) in
  let new_titles := snd (claim titles_batch seen) in
  new_titles `sublist_of` titles_batch
  /\ NoDup new_titles
  /\ (forall t, t ∈ new_titles <-> (t ∈ titles_batch) /\ (t ∉ seen))
  /\ seen' = seen ∪ list_to_set titles_batch
  /\ claim titles_batch seen' = (seen', []).
Proof.
  intros seen' new_titles.
  pose proof (claim_sublist titles_batch seen) as Hsub. fold new_titles in Hsub.
  subst seen' new_titles.
  destruct (claim titles_batch seen) as [s1 n1] eqn:Hc.
  destruct (claim_spec _ _ _ _ Hc) as (Hnd & Hnew & Hseen & Hall).
  cbn [fst snd] in *.
  split; [exact Hsub|]. split; [exact Hnd|]. split; [|split].
  - intros t. split.
    + intros Ht. destruct (Hnew t Ht). split; assumption.
    + intros [Hb Hs]. destruct (proj1 (Hseen t) (Hall t Hb)) as [H | H]; [contradiction | exact H].
  - apply set_eq. intros t. rewrite Hseen, elem_of_union, elem_of_list_to_set. split.
    + intros [H | H]; [left; exact H | right; apply Hnew, H].
    + intros [H | H]; [left; exact H | apply Hseen, Hall, H].
  - destruct (claim titles_batch s1) as [s2 n2] eqn:Hc2.
    destruct (claim_spec _ _ _ _ Hc2) as (_ & Hnew2 & Hseen2 & _).
    assert (Hn2 : n2 = []).
    { destruct n2 as [|t n2]; [reflexivity|]. exfalso.
      destruct (Hnew2 t) as [Hnot Hin]; [left|]. apply Hnot, Hall, Hin. }
    subst n2. f_equal. apply set_eq. intros t. rewrite Hseen2. split.
    + intros [H | H]; [exact H | inversion H].
    + intros H. left. exact H.
Qed.

Lemma total_sleep_app a b : total_sleep (a ++ b) = total_sleep a + total_sleep b.
Proof.
  unfold total_sleep. rewrite sleeps_app.
  induction (sleeps a) as [|x l IH]; cbn [fold_right app]; lia.
Qed.

Lemma retry_loop_sleep cfg random n a :
  0 <= RETRY_DELAY cfg -> 0 <= a ->
  0 <= total_sleep (fst (retry_loop cfg random n a))
  /\ 2 * total_sleep (fst (retry_loop cfg random n a))
     <= RETRY_DELAY cfg * Z.of_nat n * (2 * a + Z.of_nat n - 1) + 60.
Proof.
  intros Hd. revert a. induction n as [|n IH]; intros a Ha; cbn [retry_loop].
  - cbn. lia.
  - destruct (random a) as [b | msg]; [cbn; nia|].
    destruct (is_transient msg); [|cbn; nia].
    specialize (IH (a + 1) ltac:(lia)).
    destruct (retry_loop cfg random n (a + 1)) as [ev r]. cbn [fst] in *.
    change (total_sleep (RandomCall a :: Print (MsgApiError a msg)
                           :: Sleep (RETRY_DELAY cfg * a) :: ev))
      with (RETRY_DELAY cfg * a + total_sleep ev).
    nia.
Qed.

(** X10. Sampling a batch keeps a worker asleep for a bounded time: with a
    retry delay that is not negative, the seconds slept in one pass through
    the retry loop, cooldown included, are at most
    [RETRY_DELAY * n * (n + 1) / 2 + 30] for [n = MAX_RETRIES] attempts (130
    seconds with the constants of the script). *)
Theorem sampling_sleep_is_bounded (cfg : config) (random : Z -> answer (list (list Z))) :
  0 <= RETRY_DELAY cfg ->
  let n := Z.of_nat (Z.to_nat (MAX_RETRIES cfg)) in
  0 <= total_sleep (fst (sample_batch cfg random))
  /\ 2 * total_sleep (fst (sample_batch cfg random)) <= RETRY_DELAY cfg * n * (n + 1) + 60.
Proof.
  intros Hd n. unfold sample_batch.
  destruct (retry_loop_sleep cfg random (Z.to_nat (MAX_RETRIES cfg)) 1 Hd ltac:(lia))
    as [H0 H1].
  fold n in H1. split; [exact H0|]. nia.
Qed.

Lemma sampling_sleep_is_bounded_witness :
  0 <= RETRY_DELAY script_config
  /\ 2 * total_sleep (fst (sample_batch script_config (fun _ => Raises (lit "HTTP 500"))))
     <= 2 * 130.
Proof.
  assert (Hd : 0 <= RETRY_DELAY script_config) by (cbn; lia).
  split; [exact Hd|].
  exact (proj2 (sampling_sleep_is_bounded script_config
                  (fun _ => Raises (lit "HTTP 500")) Hd)).
Defined.

(** X11. An error of the sampling call is retried exactly when its message
    holds the text "HTTP" or the text "timed out" somewhere, in these very
    letters. *)
Theorem transient_iff_marker (error_msg : list Z) :
  is_transient error_msg = true
  <-> exists a b, error_msg = a ++ lit "HTTP" ++ b \/ error_msg = a ++ lit "timed out" ++ b.
Proof.
  unfold is_transient. rewrite orb_true_iff, !contains_spec. split.
  - intros [(a & b & H) | (a & b & H)]; exists a, b; [left | right]; exact H.
  - intros (a & b & [H | H]); [left | right]; exists a, b; exact H.
Qed.

(** ** More on the cleaner *)

Section CleanerFacts.

Lemma kept_not_space c :
  kept c = true -> isspace c = false ->
  0x0900 <= c <= 0x097F \/ c = 0x2C \/ c = 0x21 \/ c = 0x3F.
Proof.
  unfold kept, listed_chars. intros H Hs. rewrite Hs, orb_false_r in H.
  cbn [existsb] in H.
  repeat (apply orb_true_iff in H as [H | H]);
    try (apply andb_true_iff in H as [H1 H2]; apply Z.leb_le in H1, H2; lia);
    try (apply Z.eqb_eq in H; lia); discriminate.
Qed.

Lemma spaced_ok_chars s c :
  spaced_ok s = true -> In c s -> kept c = true /\ (isspace c = true -> c = SPACE).
Proof.
  induction s as [|a s IH]; [intros _ []|]. cbn [spaced_ok].
  intros [[Ha Hk]%andb_true_iff Hs]%andb_true_iff [<- | Hin]; [|apply IH; assumption].
  split; [exact Hk|]. intros Hsp. rewrite Hsp in Ha.
  apply andb_true_iff in Ha as [Ha _]. apply Z.eqb_eq, Ha.
Qed.

Lemma spaced_ok_no_double a b : spaced_ok (a ++ SPACE :: SPACE :: b) = false.
Proof.
  induction a as [|c a IH].
  - cbn [app spaced_ok]. rewrite isspace_SPACE. reflexivity.
  - cbn [app spaced_ok]. rewrite IH. apply andb_false_r.
Qed.

Lemma sub_runs_length cls b s : (length (sub_runs cls b s) <= length s)%nat.
Proof.
  revert b. induction s as [|c s IH]; intros b; cbn [sub_runs length]; [lia|].
  destruct (cls c); [destruct b|]; cbn [length];
    [specialize (IH true) | specialize (IH true) | specialize (IH false)]; lia.
Qed.

Lemma drop_while_length p s : (length (drop_while p s) <= length s)%nat.
Proof.
  induction s as [|c s IH]; cbn [drop_while length]; [lia|].
  destruct (p c); cbn [length]; lia.
Qed.

Lemma strip_length s : (length (strip s) <= length s)%nat.
Proof.
  unfold strip, rstrip, lstrip. rewrite length_rev.
  pose proof (drop_while_length isspace (rev (drop_while isspace s))) as H1.
  rewrite length_rev in H1. pose proof (drop_while_length isspace s). lia.
Qed.

Lemma clean_text_length x : (length (clean_text x) <= length x)%nat.
Proof.
  unfold clean_text, re_sub_plus.
  pose proof (strip_length (sub_runs isspace false (sub_runs dropped false x))).
  pose proof (sub_runs_length isspace false (sub_runs dropped false x)).
  pose proof (sub_runs_length dropped false x). lia.
Qed.

(** A text of [w] words has at least [2 * w - 1] characters. *)
Lemma split_from_length cur s :
  (2 * length (split_from cur s)
   <= length s + 1 + match cur with [] => 0 | _ :: _ => 1 end)%nat.
Proof.
  revert cur. induction s as [|c s IH]; intros cur; cbn [split_from].
  - destruct cur; cbn; lia.
  - destruct (isspace c).
    + specialize (IH []). destruct cur; cbn [length] in *; lia.
    + specialize (IH (c :: cur)). cbn [length] in *. destruct cur; lia.
Qed.

Lemma word_count_length s : 2 * word_count s <= Z.of_nat (length s) + 1.
Proof.
  unfold word_count, split. pose proof (split_from_length [] s) as H. cbn in H. lia.
Qed.

Lemma forallb_false_witness (f : Z -> bool) s :
  forallb f s = false -> exists c, In c s /\ f c = false.
Proof.
  induction s as [|a s IH]; [discriminate|]. cbn [forallb].
  destruct (f a) eqn:Ha.
  - cbn. intros H. destruct (IH H) as (c & Hin & Hc). exists c. split; [right|]; assumption.
  - intros _. exists a. split; [left; reflexivity | exact Ha].
Qed.

Lemma sub_runs_keeps cls b s c :
  In c s -> cls c = false -> In c (sub_runs cls b s).
Proof.
  revert b. induction s as [|a s IH]; intros b; [intros []|].
  cbn [sub_runs]. intros [<- | Hin] Hc.
  - rewrite Hc. left. reflexivity.
  - destruct (cls a); [destruct b|]; [|right|right]; apply IH; assumption.
Qed.

Lemma drop_while_keeps p s c : In c s -> p c = false -> In c (drop_while p s).
Proof.
  induction s as [|a s IH]; [intros []|]. cbn [drop_while].
  intros [<- | Hin] Hc; [rewrite Hc; left; reflexivity|].
  destruct (p a); [apply IH; assumption | right; exact Hin].
Qed.

Lemma strip_keeps s c : In c s -> isspace c = false -> In c (strip s).
Proof.
  intros Hin Hc. unfold strip, rstrip, lstrip.
  apply in_rev. rewrite rev_involutive. apply drop_while_keeps; [|exact Hc].
  apply -> in_rev. apply drop_while_keeps; assumption.
Qed.

Lemma sub_runs_dropped_blank b s :
  forallb (fun c => dropped c || isspace c) s = true ->
  forallb isspace (sub_runs dropped b s) = true.
Proof.
  revert b. induction s as [|c s IH]; intros b; cbn [sub_runs forallb]; [reflexivity|].
  intros [Hc Hs]%andb_true_iff. destruct (dropped c) eqn:Hd.
  - destruct b; cbn [forallb]; [|rewrite isspace_SPACE]; apply IH, Hs.
  - cbn [forallb]. cbn in Hc. rewrite Hc. apply IH, Hs.
Qed.

Lemma sub_runs_isspace_blank s :
  forallb isspace s = true ->
  sub_runs isspace true s = []
  /\ (sub_runs isspace false s = [] \/ sub_runs isspace false s = [SPACE]).
Proof.
  induction s as [|c s IH]; cbn [sub_runs forallb]; [auto|].
  intros [Hc Hs]%andb_true_iff. rewrite Hc. destruct (IH Hs) as [H1 H2].
  rewrite H1. auto.
Qed.

End CleanerFacts.

(** X12. What a cleaned text is made of: every character is a U+0020, a
    character of the Devanagari block U+0900 to U+097F, a comma, an
    exclamation mark or a question mark; the text neither starts nor ends
    with a space and has no two spaces in a row. *)
Theorem cleaned_text_shape (x : list Z) :
  let y := clean_text x in
  (forall c, In c y ->
     c = SPACE \/ 0x0900 <= c <= 0x097F \/ c = 0x2C \/ c = 0x21 \/ c = 0x3F)
  /\ (forall r, y <> SPACE :: r)
  /\ (forall r, y <> r ++ [SPACE])
  /\ (forall a b, y <> a ++ [SPACE; SPACE] ++ b).
Proof.
  intros y. pose proof (clean_text_cleaned x) as Hc. fold y in Hc.
  unfold cleaned in Hc. apply andb_true_iff in Hc as [Hh Hs].
  split; [|split; [|split]].
  - intros c Hin. destruct (spaced_ok_chars y c Hs Hin) as [Hk Hsp].
    destruct (isspace c) eqn:E; [left; apply Hsp; reflexivity|].
    right. apply kept_not_space; assumption.
  - intros r Hy. rewrite Hy in Hh. cbn in Hh. discriminate.
  - intros r Hy. rewrite Hy in Hs. apply spaced_ok_last in Hs. discriminate.
  - intros a b Hy. change (a ++ [SPACE; SPACE] ++ b) with (a ++ SPACE :: SPACE :: b) in Hy.
    rewrite Hy, spaced_ok_no_double in Hs. discriminate.
Qed.

(** X13. Cleaning never makes a text longer. *)
Theorem clean_text_never_longer (x : list Z) :
  (length (clean_text x) <= length x)%nat.
Proof. apply clean_text_length. Qed.

(** X14. Cleaning leaves nothing exactly when the text has no character to
    keep other than white space: every character is outside the kept class
    or is white space. *)
Theorem clean_text_empty_iff (x : list Z) :
  clean_text x = [] <-> forallb (fun c => dropped c || isspace c) x = true.
Proof.
  split.
  - intros Hempty. destruct (forallb _ x) eqn:Hall; [reflexivity|]. exfalso.
    apply forallb_false_witness in Hall as (c & Hin & Hc).
    apply orb_false_iff in Hc as [Hd Hs].
    assert (Hy : In c (clean_text x)).
    { unfold clean_text, re_sub_plus. apply strip_keeps; [|exact Hs].
      apply sub_runs_keeps; [|exact Hs]. apply sub_runs_keeps; assumption. }
    rewrite Hempty in Hy. exact Hy.
  - intros Hall. unfold clean_text, re_sub_plus.
    pose proof (sub_runs_dropped_blank false x Hall) as Hu.
    destruct (sub_runs_isspace_blank _ Hu) as [_ [-> | ->]]; reflexivity.
Qed.

(** X15. A page whose text has at most 100 characters is never written: its
    cleaned text cannot hold more than 50 words, so the worker skips it,
    appends nothing and leaves the shared state as it is. *)
Theorem short_page_is_never_written (cfg : config) (o : oracle) (st : state)
    (title : list Z) (rest : list (list Z)) (written : Z) (text : list Z) :
  page o = Content text ->
  (length text <= 100)%nat ->
  exists evs,
    worker_step cfg o st (FetchAndWrite title rest written)
    = (st, FetchNext rest written, evs)
    /\ corpus_titles evs = [].
Proof.
  intros Hpage Hlen. cbn [worker_step]. rewrite Hpage.
  pose proof (word_count_length (clean_text text)) as Hw.
  pose proof (clean_text_length text) as Hc.
  replace (word_count (clean_text text) <=? 50) with true
    by (symmetry; apply Z.leb_le; lia).
  eexists. split; reflexivity.
Qed.

Lemma short_page_is_never_written_witness :
  page (with_page short_text) = Content short_text
  /\ (length short_text <= 100)%nat
  /\ exists evs,
       worker_step script_config (with_page short_text) (fresh_state 0)
         (FetchAndWrite (lit "A") [] 0)
       = (fresh_state 0, FetchNext [] 0, evs)
       /\ corpus_titles evs = [].
Proof.
  assert (Hlen : (length short_text <= 100)%nat) by (cbn; lia).
  split; [reflexivity|]. split; [exact Hlen|].
  exact (short_page_is_never_written script_config (with_page short_text) (fresh_state 0)
           (lit "A") [] 0 short_text eq_refl Hlen).
Defined.

(** ** What reaches the corpus and the seen file *)

Section Fetching.

Variable cfg : config.

Lemma page_calls_app a b : page_calls (a ++ b) = page_calls a ++ page_calls b.
Proof.
  induction a as [|e a IH]; [reflexivity|].
  destruct e; cbn [page_calls app]; rewrite IH; reflexivity.
Qed.

Lemma retry_loop_quiet random n a :
  page_calls (fst (retry_loop cfg random n a)) = []
  /\ forall t c, ~ In (CorpusAppend t c) (fst (retry_loop cfg random n a)).
Proof.
  revert a. induction n as [|n IH]; intros a; cbn [retry_loop].
  - split; [reflexivity|]. intros t c [H | [H | []]]; discriminate.
  - destruct (random a) as [b | msg].
    + split; [reflexivity|]. intros t c [H | []]; discriminate.
    + destruct (is_transient msg).
      * specialize (IH (a + 1)). destruct (retry_loop cfg random n (a + 1)) as [ev r].
        cbn [fst] in *. destruct IH as [IH1 IH2]. split; [exact IH1|].
        intros t c [H | [H | [H | H]]]; try discriminate. exact (IH2 t c H).
      * split; [reflexivity|]. intros t c [H | [H | []]]; discriminate.
Qed.


Lemma monitor_step_quiet o st m :
  page_calls (snd (monitor_step cfg o st m)) = []
  /\ forall t c, ~ In (CorpusAppend t c) (snd (monitor_step cfg o st m)).
Proof.
  destruct m; cbn [monitor_step]; [|split; [reflexivity | intros t c []]].
  repeat (destruct (_ <=? _);
          [split; [reflexivity | intros t c [H | []]; discriminate]|]).
  destruct (getsize o); (split; [reflexivity | intros t c [H | [H | []]]; discriminate]).
Qed.

(** What one step of a worker does to the titles it fetches: the titles it
    has fetched in the step or still holds are those it held before or has
    just claimed; the new titles go to the seen file, all of them when the
    append goes through. *)
Lemma worker_step_fetches o st p :
  exists (new_titles : list (list Z)) (n : nat),
    NoDup new_titles
    /\ (forall t, t ∈ new_titles -> t ∉ seen_titles st)
    /\ (forall t, t ∈ seen_titles (fst (fst (worker_step cfg o st p)))
                  <-> (t ∈ seen_titles st) \/ (t ∈ new_titles))
    /\ page_calls (snd (worker_step cfg o st p)) ++ pending (snd (fst (worker_step cfg o st p)))
       ⊆+ pending p ++ new_titles
    /\ seen_file (fst (fst (worker_step cfg o st p))) = seen_file st ++ take n new_titles
    /\ (seen_append o = Appended -> take n new_titles = new_titles).
Proof.
  assert (Hsame : forall q ev, page_calls ev ++ pending q ⊆+ pending p ->
            exists (new_titles : list (list Z)) (n : nat),
              NoDup new_titles
              /\ (forall t, t ∈ new_titles -> t ∉ seen_titles st)
              /\ (forall t, t ∈ seen_titles st <-> (t ∈ seen_titles st) \/ (t ∈ new_titles))
              /\ page_calls ev ++ pending q ⊆+ pending p ++ new_titles
              /\ seen_file st = seen_file st ++ take n new_titles
              /\ (seen_append o = Appended -> take n new_titles = new_titles)).
  { intros q ev Hsub. exists [], 0%nat. split; [constructor|]. split; [|split; [|split; [|split]]].
    - intros t Ht. inversion Ht.
    - intros t. split; [auto | intros [H | H]; [exact H | inversion H]].
    - rewrite app_nil_r. exact Hsub.
    - rewrite app_nil_r. reflexivity.
    - reflexivity. }
  destruct p as [| |b|[|t r] w|t r w|t wd r w|w|r]; cbn [worker_step].
  - repeat (destruct (_ <=? _)); apply Hsame; reflexivity.
  - pose proof (proj1 (retry_loop_quiet (random_answer o) (Z.to_nat (MAX_RETRIES cfg)) 1))
      as Hr.
    fold (sample_batch cfg (random_answer o)) in Hr.
    destruct (sample_batch cfg (random_answer o)) as [ev [b|]];
      apply Hsame; cbn [pending fst snd] in *; rewrite Hr; reflexivity.
  - destruct (claim b (seen_titles st)) as [seen new] eqn:Hc.
    destruct (claim_spec _ _ _ _ Hc) as (Hnd & Hfresh & Hseen & _).
    destruct new as [|t new].
    + exists [], 0%nat. cbn.
      split; [constructor|]. split; [intros t Ht; inversion Ht|].
      split; [exact Hseen|]. split; [reflexivity|].
      rewrite app_nil_r. split; reflexivity.
    + destruct (seen_append o) as [|msg n] eqn:Ha.
      * exists (t :: new), (length (t :: new)). cbn [pending page_calls app fst snd].
        split; [exact Hnd|]. split; [intros t' Ht'; apply Hfresh, Ht'|].
        split; [exact Hseen|]. split; [reflexivity|].
        rewrite take_ge by lia. split; reflexivity.
      * exists (t :: new), n. cbn [pending page_calls app fst snd].
        split; [exact Hnd|]. split; [intros t' Ht'; apply Hfresh, Ht'|].
        split; [exact Hseen|]. split; [reflexivity|]. split; [reflexivity | discriminate].
  - apply Hsame; reflexivity.
  - destruct (_ <=? _); apply Hsame; cbn [pending page_calls app snd fst].
    + apply submseteq_nil_l.
    + reflexivity.
  - destruct (page o);
      [destruct (word_count _ <=? 50); [|destruct (corpus_append o)] |..];
      apply Hsame; reflexivity.
  - apply Hsame; reflexivity.
  - destruct (w =? 0); apply Hsame; reflexivity.
  - apply Hsame; reflexivity.
Qed.

Lemma shuffle_step (C E l1 P P' l2 new : list (list Z)) :
  E ++ P' ⊆+ P ++ new ->
  (C ++ E) ++ l1 ++ P' ++ l2 ⊆+ (C ++ l1 ++ P ++ l2) ++ new.
Proof.
  intros Hsub.
  transitivity ((E ++ P') ++ C ++ l1 ++ l2); [apply Permutation_submseteq; solve_Permutation|].
  transitivity ((P ++ new) ++ C ++ l1 ++ l2);
    [apply submseteq_skips_r, Hsub | apply Permutation_submseteq; solve_Permutation].
Qed.

Lemma fetch_invariant_step seen0 s evs who o :
  fetch_invariant seen0 s evs ->
  fetch_invariant seen0 (fst (sys_step cfg who o s)) (evs ++ snd (sys_step cfg who o s)).
Proof.
  intros (Hnd & Hin & Hmono). destruct who as [i|]; cbn [sys_step].
  - destruct (workers s !! i) as [p|] eqn:Hi.
    2:{ cbn [fst snd]. rewrite app_nil_r. split; [|split]; assumption. }
    destruct (worker_step_fetches o (shared s) p)
      as (new & n & Hnew & Hfresh & Hseen & Hsub & _ & _).
    destruct (worker_step cfg o (shared s) p) as [[st' p'] ev].
    unfold fetch_invariant. cbn [fst snd shared workers] in *.
    destruct (pending_all_insert _ _ _ p' Hi) as (l1 & l2 & Hp & Hp').
    rewrite Hp in Hnd, Hin. rewrite Hp', page_calls_app.
    pose proof (shuffle_step (page_calls evs) (page_calls ev) l1 (pending p) (pending p')
                  l2 new Hsub) as Hall.
    assert (Hbig : NoDup ((page_calls evs ++ l1 ++ pending p ++ l2) ++ new)).
    { apply NoDup_app. split; [exact Hnd|]. split; [|exact Hnew].
      intros t Ht Ht'. apply (Hfresh t Ht'), Hin, Ht. }
    split; [exact (NoDup_of_submseteq _ _ Hall Hbig)|]. split.
    + intros t Ht. eapply elem_of_submseteq in Ht; [|exact Hall].
      apply elem_of_app in Ht as [Ht | Ht].
      * destruct (Hin t Ht) as [H1 H2]. split; [apply Hseen; left; exact H1 | exact H2].
      * split; [apply Hseen; right; exact Ht|].
        intros H0. apply (Hfresh t Ht), Hmono, H0.
    + intros t Ht. apply Hseen. left. apply Hmono, Ht.
  - pose proof (proj1 (monitor_step_quiet o (shared s) (monitor s))) as Hm.
    destruct (monitor_step cfg o (shared s) (monitor s)) as [m ev].
    unfold fetch_invariant. cbn [fst snd shared workers] in *.
    rewrite page_calls_app, Hm, app_nil_r. split; [|split]; assumption.
Qed.

End Fetching.



(** X17. No title is fetched twice in one run, and no title that the load
    had put in the set of seen titles is fetched at all; every title fetched
    is in the set from then on. *)
Theorem no_title_fetched_twice (cfg : config) (file : option (list (list Z)))
    (schedule : list (thread * oracle)) :
  let r := run cfg schedule (start cfg file) in
  NoDup (page_calls (snd r))
  /\ forall t, t ∈ page_calls (snd r) ->
       (t ∉ seen_titles (load file)) /\ (t ∈ seen_titles (shared (fst r))).
Proof.
  intros r.
  assert (Hinv : fetch_invariant (seen_titles (load file)) (fst r) ([] ++ snd r)).
  { refine (run_invariant cfg (fetch_invariant (seen_titles (load file)))
              _ schedule (start cfg file) [] _).
    - intros s evs who o. apply fetch_invariant_step.
    - unfold fetch_invariant, start. cbn [shared workers page_calls app].
      rewrite pending_all_replicate. split; [constructor|].
      split; [intros t Ht; inversion Ht | auto]. }
  cbn [app] in Hinv. destruct Hinv as (Hnd & Hin & _). split.
  - apply NoDup_app in Hnd. apply Hnd.
  - intros t Ht. destruct (Hin t) as [H1 H2]; [apply elem_of_app; left; exact Ht|].
    split; assumption.
Qed.

(** ** From one run to the next *)

Section Restart.

Variable cfg : config.



End Restart.

(** X18. What the load makes of the seen file depends only on which lines
    are in it, not on their order nor on how often each occurs: two files
    with the same lines give the same set of seen titles and the same
    count. *)
Theorem load_depends_on_the_lines_only (lines lines' : list (list Z)) :
  (forall line, In line lines <-> In line lines') ->
  seen_titles (load (Some lines)) = seen_titles (load (Some lines'))
  /\ total_articles_written (load (Some lines))
     = total_articles_written (load (Some lines')).
Proof.
  intros Hsame.
  assert (Hseen : seen_titles (load (Some lines)) = seen_titles (load (Some lines'))).
  { apply set_eq. intros t. cbn [load seen_titles].
    rewrite !elem_of_filter, !read_lines_spec. split.
    - intros [Hv [H | (Hne & line & Hin & Hs)]]; [inversion H|].
      split; [exact Hv|]. right. split; [exact Hne|]. exists line.
      split; [apply Hsame, Hin | exact Hs].
    - intros [Hv [H | (Hne & line & Hin & Hs)]]; [inversion H|].
      split; [exact Hv|]. right. split; [exact Hne|]. exists line.
      split; [apply Hsame, Hin | exact Hs]. }
  split; [exact Hseen|]. cbn [load total_articles_written seen_titles] in *.
  rewrite Hseen. reflexivity.
Qed.

Lemma load_depends_on_the_lines_only_witness :
  (forall line, In line [lit "A"; lit "B"; lit "A"] <-> In line [lit "B"; lit "A"])
  /\ total_articles_written (load (Some [lit "A"; lit "B"; lit "A"]))
     = total_articles_written (load (Some [lit "B"; lit "A"])).
Proof.
  assert (Hsame : forall line,
            In line [lit "A"; lit "B"; lit "A"] <-> In line [lit "B"; lit "A"])
    by (intros line; cbn [In]; tauto).
  split; [exact Hsame|].
  exact (proj2 (load_depends_on_the_lines_only _ _ Hsame)).
Defined.



(** ** Nothing new from the source *)

Section NothingNew.

Variable cfg : config.

Lemma claim_all_seen (titles_batch : list (list Z)) (seen : gset (list Z)) :
  (forall t, In t titles_batch -> t ∈ seen) -> claim titles_batch seen = (seen, []).
Proof.
  induction titles_batch as [|title rest IH]; intros Hall; [reflexivity|].
  cbn [claim]. destruct (decide (title ∈ seen)) as [_ | Hnot].
  - apply IH. intros t Ht. apply Hall. right. exact Ht.
  - exfalso. apply Hnot, Hall. left. reflexivity.
Qed.

Lemma seen_only_rounds o evs0 titles_batch (m : nat) st :
  sample_batch cfg (random_answer o) = (evs0, Some titles_batch) ->
  (forall t, In t titles_batch -> t ∈ seen_titles st) ->
  total_articles_written st < NUM_ARTICLES cfg ->
  Z.of_nat m = CONSECUTIVE_EMPTY_THRESHOLD cfg - consecutive_empty_batches st ->
  exists evs,
    worker_run cfg (repeat o (3 * m + 1)) st CheckStop
    = (set_empty st (CONSECUTIVE_EMPTY_THRESHOLD cfg), Stopped NoNewArticles, evs)
    /\ page_calls evs = [] /\ corpus_titles evs = [].
Proof.
  intros Hs. revert st. induction m as [|m IH]; intros st Hseen Htotal Hm.
  - cbn [Nat.mul Nat.add repeat worker_run worker_step].
    replace (NUM_ARTICLES cfg <=? total_articles_written st) with false
      by (symmetry; apply Z.leb_gt; exact Htotal).
    replace (CONSECUTIVE_EMPTY_THRESHOLD cfg <=? consecutive_empty_batches st) with true
      by (symmetry; apply Z.leb_le; lia).
    exists ([Print MsgStopNoNew] ++ []). split; [|split; reflexivity].
    assert (He : consecutive_empty_batches st = CONSECUTIVE_EMPTY_THRESHOLD cfg) by lia.
    rewrite <- He. destruct st; reflexivity.
  - replace (repeat o (3 * S m + 1)) with ([o] ++ [o; o] ++ repeat o (3 * m + 1))
      by (replace (3 * S m + 1)%nat with (S (S (S (3 * m + 1)))) by lia; reflexivity).
    rewrite worker_run_app. cbn [worker_run worker_step].
    replace (NUM_ARTICLES cfg <=? total_articles_written st) with false
      by (symmetry; apply Z.leb_gt; exact Htotal).
    replace (CONSECUTIVE_EMPTY_THRESHOLD cfg <=? consecutive_empty_batches st) with false
      by (symmetry; apply Z.leb_gt; lia).
    rewrite worker_run_app. cbn [worker_run]. cbn [worker_step]. rewrite Hs.
    cbn [worker_step]. rewrite (claim_all_seen _ _ Hseen), set_seen_same.
    destruct (IH (set_empty st (consecutive_empty_batches st + 1)))
      as (evs & Hevs & Hp & Hc); [exact Hseen | exact Htotal | cbn; lia |].
    rewrite Hevs. eexists. split; [reflexivity|].
    pose proof (retry_loop_quiet cfg (random_answer o) (Z.to_nat (MAX_RETRIES cfg)) 1)
      as [Hq1 Hq2].
    pose proof (retry_loop_corpus cfg (random_answer o) (Z.to_nat (MAX_RETRIES cfg)) 1) as Hq3.
    fold (sample_batch cfg (random_answer o)) in Hq1, Hq3. rewrite Hs in Hq1, Hq3.
    cbn [fst] in Hq1, Hq3.
    rewrite !page_calls_app, !corpus_titles_app, Hq1, Hq3, Hp, Hc. split; reflexivity.
Qed.

End NothingNew.

(** X20. When the source has nothing new to give, the harvest ends: a
    worker on its own whose every sampling brings a batch of titles that are
    all in the set of seen titles fetches no page, writes nothing, and stops
    for lack of new articles with the counter at the threshold, on its step
    number [3 * m + 1] when the counter starts [m] below the threshold. *)
Theorem seen_only_batches_reach_the_stop (cfg : config) (o : oracle) (st : state)
    (evs0 : list event) (titles_batch : list (list Z)) :
  sample_batch cfg (random_answer o) = (evs0, Some titles_batch) ->
  (forall t, In t titles_batch -> t ∈ seen_titles st) ->
  total_articles_written st < NUM_ARTICLES cfg ->
  consecutive_empty_batches st <= CONSECUTIVE_EMPTY_THRESHOLD cfg ->
  exists evs,
    worker_run cfg
      (repeat o (3 * Z.to_nat (CONSECUTIVE_EMPTY_THRESHOLD cfg
                               - consecutive_empty_batches st) + 1))
      st CheckStop
    = (set_empty st (CONSECUTIVE_EMPTY_THRESHOLD cfg), Stopped NoNewArticles, evs)
    /\ page_calls evs = [] /\ corpus_titles evs = [].
Proof.
  intros Hs Hseen Htotal Hle.
  apply (seen_only_rounds cfg o evs0 titles_batch); [exact Hs | exact Hseen | exact Htotal | lia].
Qed.

Lemma seen_only_batches_reach_the_stop_witness :
  let st := load (Some [lit "A"]) in
  let o := with_batch [lit "A"] in
  sample_batch script_config (random_answer o) = ([RandomCall 1], Some [lit "A"])
  /\ (forall t, In t [lit "A"] -> t ∈ seen_titles st)
  /\ total_articles_written st < NUM_ARTICLES script_config
  /\ consecutive_empty_batches st <= CONSECUTIVE_EMPTY_THRESHOLD script_config
  /\ exists evs,
       worker_run script_config (repeat o 301) st CheckStop
       = (set_empty st 100, Stopped NoNewArticles, evs)
       /\ page_calls evs = [] /\ corpus_titles evs = [].
Proof.
  cbv zeta.
  assert (Hseen : forall t, In t [lit "A"] -> t ∈ seen_titles (load (Some [lit "A"]))).
  { intros t [<- | []]. vm_compute. reflexivity. }
  assert (Hle : consecutive_empty_batches (load (Some [lit "A"]))
                <= CONSECUTIVE_EMPTY_THRESHOLD script_config) by (cbn; lia).
  split; [reflexivity|]. split; [exact Hseen|]. split; [reflexivity|]. split; [exact Hle|].
  exact (seen_only_batches_reach_the_stop script_config (with_batch [lit "A"])
           (load (Some [lit "A"])) [RandomCall 1] [lit "A"] eq_refl Hseen eq_refl Hle).
Defined.
